(** * cpp-verify: the expression decomposition of [verify(x)]

    A shallow embedding of [include/verify.hpp]: the comparator tags, the
    two expression nodes, the [Decomposition] / [NegatedDecomposition]
    results, the [decompose] capture pipeline and the [verify(x)] macro,
    together with the small part of [<ostream>] the header prints through. *)

From Stdlib Require Import ZArith NArith List String Ascii Bool Lia.
Import ListNotations.
Open Scope string_scope.

(* ================================================================== *)
(** ** Text *)

(** [ends_with suffix s]: the last characters of [s] spell [suffix]. *)
Fixpoint ends_with (suffix s : string) : bool :=
  String.eqb s suffix
  || match s with
     | EmptyString => false
     | String _ s' => ends_with suffix s'
     end.

(* ================================================================== *)
(** ** The output stream

    [std::ostream] as far as the header depends on it: the format flags
    that decide how [bool] and [int] are written and on which side a
    field is padded, the precision, the field width and fill character
    that pad one insertion, whether the stream is still good, and the
    characters written so far.  The destination takes every character it
    is given. *)

Module IOStream.

Inductive basefield := dec | oct | hex.

(** [std::ios_base::adjustfield]: no bit set (a fresh stream), [left],
    [right] or [internal]. *)
Inductive adjustfield := unadjusted | adjust_left | adjust_right | adjust_internal.

Record fmtflags := mk_fmtflags {
  boolalpha : bool;
  base : basefield;
  adjust : adjustfield
}.

Record ostream := mk_ostream {
  flags : fmtflags;
  precision : nat;
  width : nat;
  fill : ascii;
  good : bool;
  buffer : string
}.

(** A default-constructed [std::stringstream]. *)
Definition stringstream : ostream :=
  {| flags := {| boolalpha := false; base := dec; adjust := unadjusted |};
     precision := 6; width := 0; fill := " "%char; good := true; buffer := "" |}.

(** [stream.str()] *)
Definition str (stream : ostream) : string := buffer stream.

(** The manipulator [std::boolalpha]. *)
Definition set_boolalpha (os : ostream) : ostream :=
  {| flags := {| boolalpha := true; base := base (flags os);
                 adjust := adjust (flags os) |};
     precision := precision os; width := width os; fill := fill os;
     good := good os; buffer := buffer os |}.

Fixpoint replicate (n : nat) (c : ascii) : string :=
  match n with
  | O => ""
  | S n' => String c (replicate n' c)
  end.

(** Padding of one inserted string to the field width: the fill
    characters come after the text on a [left] stream and before it
    otherwise. *)
Definition pad (os : ostream) (s : string) : string :=
  match adjust (flags os) with
  | adjust_left => s ++ replicate (width os - String.length s) (fill os)
  | unadjusted | adjust_right | adjust_internal =>
      replicate (width os - String.length s) (fill os) ++ s
  end.

(** [os << s] for a [std::string] or a [const char *]: a formatted
    insertion.  On a good stream it pads to the field width and then
    resets the width; on a stream that is not good it inserts nothing and
    leaves the stream as it is. *)
Definition insert_string (os : ostream) (s : string) : ostream :=
  if good os then
    {| flags := flags os; precision := precision os; width := 0; fill := fill os;
       good := true; buffer := buffer os ++ pad os s |}
  else os.

Definition digit (d : N) : ascii :=
  nth (N.to_nat d) (list_ascii_of_string "0123456789abcdef") "?"%char.

Fixpoint digits (fuel : nat) (radix n : N) (acc : string) : string :=
  match fuel with
  | O => acc
  | S fuel' =>
      let acc' := String (digit (n mod radix)) acc in
      if (n / radix =? 0)%N then acc' else digits fuel' radix (n / radix) acc'
  end.

Definition show_N (radix n : N) : string :=
  digits (S (N.to_nat (N.log2 n))) radix n "".

(** The digits [num_put] writes for an [int]: signed in decimal, the
    32-bit two's complement pattern in octal and hexadecimal. *)
Definition show_int (b : basefield) (z : Z) : string :=
  match b with
  | dec => if (z <? 0)%Z then "-" ++ show_N 10 (Z.to_N (- z)) else show_N 10 (Z.to_N z)
  | oct => show_N 8 (Z.to_N (z mod 2 ^ 32))
  | hex => show_N 16 (Z.to_N (z mod 2 ^ 32))
  end.

(** Padding of one inserted number: as for a string, except that an
    [internal] stream puts the fill characters between the sign and the
    digits. *)
Definition pad_number (os : ostream) (s : string) : string :=
  match adjust (flags os) with
  | adjust_internal =>
      match s with
      | String c digits =>
          if Ascii.eqb c "-" then
            String c (replicate (width os - String.length s) (fill os) ++ digits)
          else pad os s
      | EmptyString => pad os s
      end
  | unadjusted | adjust_left | adjust_right => pad os s
  end.

(** [os << z] for an [int]. *)
Definition insert_int (os : ostream) (z : Z) : ostream :=
  if good os then
    {| flags := flags os; precision := precision os; width := 0; fill := fill os;
       good := true;
       buffer := buffer os ++ pad_number os (show_int (base (flags os)) z) |}
  else os.

(** The word [std::boolalpha] selects for a [bool]. *)
Definition bool_text (b : bool) : string := if b then "true" else "false".

(** [os << b] for a [bool]. *)
Definition insert_bool (os : ostream) (b : bool) : ostream :=
  if boolalpha (flags os) then insert_string os (bool_text b)
  else insert_int os (if b then 1 else 0)%Z.

End IOStream.
Import IOStream.

(** [operator<<(std::ostream &, const T &)] *)
Class Streamable (T : Type) := stream_out : ostream -> T -> ostream.

Notation "os << x" := (stream_out os x) (at level 65, left associativity).

Inductive manipulator := std_boolalpha.

#[export] Instance Streamable_manipulator : Streamable manipulator :=
  fun os m => match m with std_boolalpha => set_boolalpha os end.
#[export] Instance Streamable_string : Streamable string := insert_string.
#[export] Instance Streamable_bool : Streamable bool := insert_bool.
#[export] Instance Streamable_int : Streamable Z := insert_int.

(* ================================================================== *)
(** ** Comparator tags *)

(** The tag structs [EQ], [NE], [LE], [GE], [LT], [GT]. *)
Inductive comparator := EQ | NE | LE | GE | LT | GT.

(** [operator<<(std::ostream &, const EQ)] and its five siblings. *)
#[export] Instance Streamable_comparator : Streamable comparator :=
  fun os c =>
    match c with
    | EQ => os << " == "
    | NE => os << " != "
    | LE => os << " <= "
    | GE => os << " >= "
    | LT => os << " < "
    | GT => os << " > "
    end.

(* ================================================================== *)
(** ** Data

    Operands are captured by [const] reference; a reference is modelled
    by the value it refers to. *)

Record UnaryExpression (T : Type) := mk_UnaryExpression {
  operand : T
}.
Arguments mk_UnaryExpression {T}.
Arguments operand {T}.

Record BinaryExpression (L : Type) (Comparison : comparator) (R : Type) :=
  mk_BinaryExpression {
  operand1 : L;
  operand2 : R
}.
Arguments mk_BinaryExpression {L} Comparison {R}.
Arguments operand1 {L Comparison R}.
Arguments operand2 {L Comparison R}.

Record Decomposition (Expression : Type) := mk_Decomposition {
  code : string;
  expression : Expression;
  value : bool
}.
Arguments mk_Decomposition {Expression}.
Arguments code {Expression}.
Arguments expression {Expression}.
Arguments value {Expression}.

(** [struct NegatedDecomposition : public Decomposition<Expression>]: the
    base sub-object and nothing else. *)
Record NegatedDecomposition (Expression : Type) := mk_NegatedDecomposition {
  base_object : Decomposition Expression
}.
Arguments mk_NegatedDecomposition {Expression}.
Arguments base_object {Expression}.

Record decompose := mk_decompose {
  decompose_code : string
}.

Record FirstOperand (T1 : Type) := mk_FirstOperand {
  first_code : string;
  first_operand1 : T1
}.
Arguments mk_FirstOperand {T1}.
Arguments first_code {T1}.
Arguments first_operand1 {T1}.

Record SecondOperand (T1 : Type) (C : comparator) (T2 : Type) := mk_SecondOperand {
  second_code : string;
  second_operand1 : T1;
  second_operand2 : T2
}.
Arguments mk_SecondOperand {T1} C {T2}.
Arguments second_code {T1 C T2}.
Arguments second_operand1 {T1 C T2}.
Arguments second_operand2 {T1 C T2}.

(* ================================================================== *)
(** ** Printing

    Every printer composes its text in a local [std::stringstream] and
    hands the finished string to the destination. *)

(** [operator<<(std::ostream &, const UnaryExpression &)] *)
#[export] Instance Streamable_UnaryExpression {T} `{Streamable T} :
  Streamable (UnaryExpression T) :=
  fun os this_ =>
    let stream := stringstream in
    let stream := stream << operand this_ in
    os << str stream.

(** [operator<<(std::ostream &, const BinaryExpression &)] *)
#[export] Instance Streamable_BinaryExpression {L C R} `{Streamable L} `{Streamable R} :
  Streamable (BinaryExpression L C R) :=
  fun os this_ =>
    let stream := stringstream in
    let stream := stream << operand1 this_ << C << operand2 this_ in
    os << str stream.

(** [operator<<(std::ostream &, const Decomposition &)] *)
#[export] Instance Streamable_Decomposition {E} `{Streamable E} :
  Streamable (Decomposition E) :=
  fun os this_ =>
    let stream := stringstream in
    let stream :=
      stream << std_boolalpha << "verify(" << code this_ << ") => verify("
             << expression this_ << ") => " << value this_ in
    os << str stream.

(** [operator<<(std::ostream &, const NegatedDecomposition &)] *)
#[export] Instance Streamable_NegatedDecomposition {E} `{Streamable E} :
  Streamable (NegatedDecomposition E) :=
  fun os this_ =>
    let value := negb (value (base_object this_)) in
    let stream := stringstream in
    let stream :=
      stream << std_boolalpha << "!verify(" << code (base_object this_)
             << ") => !verify(" << expression (base_object this_) << ") => " << value in
    os << str stream.

(** The text a printer produces for [x]: what a fresh stream holds after
    [stream << x]. *)
Definition rendered {T} `{Streamable T} (x : T) : string :=
  str (stringstream << x).

(* ================================================================== *)
(** ** Negation and boolean conversion *)

(** The constructor [NegatedDecomposition(s, x, v)], which forwards to
    the base constructor. *)
Definition NegatedDecomposition_ctor {E} (s : string) (x : E) (v : bool) :
  NegatedDecomposition E :=
  mk_NegatedDecomposition (mk_Decomposition s x v).

(** [Decomposition::operator!] *)
Definition Decomposition_operator_not {E} (this_ : Decomposition E) :
  NegatedDecomposition E :=
  NegatedDecomposition_ctor (code this_) (expression this_) (value this_).

(** [Decomposition::operator bool] *)
Definition Decomposition_operator_bool {E} (this_ : Decomposition E) : bool :=
  value this_.

(** [NegatedDecomposition::operator!] *)
Definition NegatedDecomposition_operator_not {E} (this_ : NegatedDecomposition E) :
  Decomposition E :=
  mk_Decomposition (code (base_object this_)) (expression (base_object this_))
                   (value (base_object this_)).

(** [NegatedDecomposition::operator bool] *)
Definition NegatedDecomposition_operator_bool {E} (this_ : NegatedDecomposition E) :
  bool :=
  negb (value (base_object this_)).

(* ================================================================== *)
(** ** The capture objects *)

(** [decompose::operator<<] *)
Definition decompose_operator_shl {T} (this_ : decompose) (op1 : T) : FirstOperand T :=
  mk_FirstOperand (decompose_code this_) op1.

(** [FirstOperand::operator==] and its five siblings. *)
Definition FirstOperand_operator_eq {T1 T2} (this_ : FirstOperand T1) (op2 : T2) :
  SecondOperand T1 EQ T2 :=
  mk_SecondOperand EQ (first_code this_) (first_operand1 this_) op2.
Definition FirstOperand_operator_ne {T1 T2} (this_ : FirstOperand T1) (op2 : T2) :
  SecondOperand T1 NE T2 :=
  mk_SecondOperand NE (first_code this_) (first_operand1 this_) op2.
Definition FirstOperand_operator_le {T1 T2} (this_ : FirstOperand T1) (op2 : T2) :
  SecondOperand T1 LE T2 :=
  mk_SecondOperand LE (first_code this_) (first_operand1 this_) op2.
Definition FirstOperand_operator_ge {T1 T2} (this_ : FirstOperand T1) (op2 : T2) :
  SecondOperand T1 GE T2 :=
  mk_SecondOperand GE (first_code this_) (first_operand1 this_) op2.
Definition FirstOperand_operator_lt {T1 T2} (this_ : FirstOperand T1) (op2 : T2) :
  SecondOperand T1 LT T2 :=
  mk_SecondOperand LT (first_code this_) (first_operand1 this_) op2.
Definition FirstOperand_operator_gt {T1 T2} (this_ : FirstOperand T1) (op2 : T2) :
  SecondOperand T1 GT T2 :=
  mk_SecondOperand GT (first_code this_) (first_operand1 this_) op2.

(** The comparison operator of [FirstOperand] that yields tag [C]. *)
Definition FirstOperand_operator (C : comparator) {T1 T2} :
  FirstOperand T1 -> T2 -> SecondOperand T1 C T2 :=
  match C with
  | EQ => FirstOperand_operator_eq
  | NE => FirstOperand_operator_ne
  | LE => FirstOperand_operator_le
  | GE => FirstOperand_operator_ge
  | LT => FirstOperand_operator_lt
  | GT => FirstOperand_operator_gt
  end.

(* ================================================================== *)
(** ** Evaluation

    The operands' own conversions and comparisons are user code: they
    may act on the program's state [World].  [evaluate_calls] is a ghost
    counter of the entries into a node's [evaluate()]. *)

Record State (World : Type) := mk_State {
  world : World;
  evaluate_calls : nat
}.
Arguments mk_State {World}.
Arguments world {World}.
Arguments evaluate_calls {World}.

Definition M (World A : Type) : Type := State World -> A * State World.

Definition ret {World A} (a : A) : M World A := fun s => (a, s).

Definition bind {World A B} (c : M World A) (k : A -> M World B) : M World B :=
  fun s => let (a, s') := c s in k a s'.

Notation "x <- c ;; k" := (bind c (fun x => k))
  (at level 61, c at next level, right associativity).
Notation "c ;; k" := (bind c (fun _ => k))
  (at level 61, right associativity).

(** A call into the operands' own code. *)
Definition native {World A} (f : World -> A * World) : M World A :=
  fun s => let (a, w) := f (world s) in (a, mk_State w (evaluate_calls s)).

(** Ghost step: control enters a node's [evaluate()]. *)
Definition enter_evaluate {World} : M World unit :=
  fun s => (tt, mk_State (world s) (S (evaluate_calls s))).

(** [static_cast<bool>(x)] on an operand of type [T]. *)
Class BoolConvertible (World T : Type) := to_bool : T -> World -> bool * World.

(** The six comparison operators between a [T1] and a [T2], each
    already converted to [bool] as the tags' [return] does. *)
Class Comparable (World T1 T2 : Type) := {
  op_eq : T1 -> T2 -> World -> bool * World;
  op_ne : T1 -> T2 -> World -> bool * World;
  op_le : T1 -> T2 -> World -> bool * World;
  op_ge : T1 -> T2 -> World -> bool * World;
  op_lt : T1 -> T2 -> World -> bool * World;
  op_gt : T1 -> T2 -> World -> bool * World
}.

(** The comparison the source spells with the operator of tag [c]. *)
Definition native_comparison {World T1 T2} `{Comparable World T1 T2}
  (c : comparator) : T1 -> T2 -> World -> bool * World :=
  match c with
  | EQ => op_eq
  | NE => op_ne
  | LE => op_le
  | GE => op_ge
  | LT => op_lt
  | GT => op_gt
  end.

Section Evaluation.
Context {World : Type}.

(** [EQ::evaluate] ... [GT::evaluate] *)
Definition EQ_evaluate {T1 T2} `{Comparable World T1 T2} (op1 : T1) (op2 : T2) :
  M World bool := native (op_eq op1 op2).
Definition NE_evaluate {T1 T2} `{Comparable World T1 T2} (op1 : T1) (op2 : T2) :
  M World bool := native (op_ne op1 op2).
Definition LE_evaluate {T1 T2} `{Comparable World T1 T2} (op1 : T1) (op2 : T2) :
  M World bool := native (op_le op1 op2).
Definition GE_evaluate {T1 T2} `{Comparable World T1 T2} (op1 : T1) (op2 : T2) :
  M World bool := native (op_ge op1 op2).
Definition LT_evaluate {T1 T2} `{Comparable World T1 T2} (op1 : T1) (op2 : T2) :
  M World bool := native (op_lt op1 op2).
Definition GT_evaluate {T1 T2} `{Comparable World T1 T2} (op1 : T1) (op2 : T2) :
  M World bool := native (op_gt op1 op2).

(** [Comparison::evaluate] for the tag the node was instantiated with. *)
Definition Comparison_evaluate (Comparison : comparator)
  {T1 T2} `{Comparable World T1 T2} : T1 -> T2 -> M World bool :=
  match Comparison with
  | EQ => EQ_evaluate
  | NE => NE_evaluate
  | LE => LE_evaluate
  | GE => GE_evaluate
  | LT => LT_evaluate
  | GT => GT_evaluate
  end.

(** What [make_decomposition] asks of its node: [x.evaluate()]. *)
Class Expression (E : Type) := evaluate : E -> M World bool.

(** [UnaryExpression::evaluate] *)
#[export] Instance UnaryExpression_evaluate {T} `{BoolConvertible World T} :
  Expression (UnaryExpression T) :=
  fun this_ => enter_evaluate ;; native (to_bool (operand this_)).

(** [BinaryExpression::evaluate] *)
#[export] Instance BinaryExpression_evaluate {L C R} `{Comparable World L R} :
  Expression (BinaryExpression L C R) :=
  fun this_ =>
    enter_evaluate ;; Comparison_evaluate C (operand1 this_) (operand2 this_).

(** [make_decomposition] *)
Definition make_decomposition {E} `{Expression E} (code : string) (x : E) :
  M World (Decomposition E) :=
  v <- evaluate x ;; ret (mk_Decomposition code x v).

(** [FirstOperand::finish] *)
Definition FirstOperand_finish {T1} `{BoolConvertible World T1}
  (this_ : FirstOperand T1) : M World (Decomposition (UnaryExpression T1)) :=
  make_decomposition (first_code this_) (mk_UnaryExpression (first_operand1 this_)).

(** [SecondOperand::finish] *)
Definition SecondOperand_finish {T1 C T2} `{Comparable World T1 T2}
  (this_ : SecondOperand T1 C T2) :
  M World (Decomposition (BinaryExpression T1 C T2)) :=
  make_decomposition (second_code this_)
    (mk_BinaryExpression C (second_operand1 this_) (second_operand2 this_)).

End Evaluation.

(** A printer that hands its destination one finished string. *)
Definition inserts_finished_string (T : Type) `{Streamable T} : Prop :=
  forall (os : ostream) (x : T), os << x = insert_string os (rendered x).

(** A printer that uses nothing of its destination's formatting but a
    pending field width.  Flags, precision and fill are as before, and
    so is the state of the stream; a good destination receives the text,
    padded to the pending width, and has its width reset, and one that is
    not good receives nothing and keeps its width; the text handed over
    is the same on every destination; and printing again on a good
    destination appends the bare text. *)
Definition uses_only_the_width (T : Type) `{Streamable T} : Prop :=
  forall (os : ostream) (x : T),
    flags (os << x) = flags os
    /\ precision (os << x) = precision os
    /\ fill (os << x) = fill os
    /\ good (os << x) = good os
    /\ width (os << x) = (if good os then 0 else width os)
    /\ buffer (os << x) = buffer os ++ (if good os then pad os (rendered x) else "")
    /\ (forall os' : ostream, os' << x = insert_string os' (rendered x))
    /\ buffer (os << x << x)
       = buffer (os << x) ++ (if good os then rendered x else "").

(* ================================================================== *)
(** ** The expansion of [verify(x)] on its two accepted shapes

    [((CppVerify::decompose(#x) << x).finish())]: a bare operand, and an
    operand followed by a comparison. *)

Definition verify_unary {World T} `{BoolConvertible World T} (src : string) (x : T) :
  M World (Decomposition (UnaryExpression T)) :=
  FirstOperand_finish (decompose_operator_shl (mk_decompose src) x).

Definition verify_binary {World T1 T2} `{Comparable World T1 T2}
  (C : comparator) (src : string) (x : T1) (y : T2) :
  M World (Decomposition (BinaryExpression T1 C T2)) :=
  SecondOperand_finish
    (FirstOperand_operator C (decompose_operator_shl (mk_decompose src) x) y).

(** The boolean a caller observes from [((decompose(#x) << x) op y).finish()]. *)
Definition decomposed_boolean {World T1 C T2} `{Comparable World T1 T2}
  (second : SecondOperand T1 C T2) (s : State World) : bool :=
  Decomposition_operator_bool (fst (SecondOperand_finish second s)).

(* ================================================================== *)
(** ** Built-in operand types *)

(** [bool]: the conversion is the identity. *)
#[export] Instance BoolConvertible_bool {World} : BoolConvertible World bool :=
  fun b w => (b, w).

(** [int]: non-zero is true. *)
#[export] Instance BoolConvertible_int {World} : BoolConvertible World Z :=
  fun z w => (negb (z =? 0)%Z, w).

(** [int] against [int]: the built-in comparisons. *)
#[export] Instance Comparable_int {World} : Comparable World Z Z := {|
  op_eq a b w := ((a =? b)%Z, w);
  op_ne a b w := (negb (a =? b)%Z, w);
  op_le a b w := ((a <=? b)%Z, w);
  op_ge a b w := ((a >=? b)%Z, w);
  op_lt a b w := ((a <? b)%Z, w);
  op_gt a b w := ((a >? b)%Z, w)
|}.

(** An operand type with observable comparisons and conversions: every
    one of them counts itself in the world. *)
Record counted := mk_counted { payload : Z }.

#[export] Instance Streamable_counted : Streamable counted :=
  fun os c => os << payload c.

#[export] Instance BoolConvertible_counted : BoolConvertible nat counted :=
  fun c calls => (negb (payload c =? 0)%Z, S calls).

#[export] Instance Comparable_counted : Comparable nat counted counted := {|
  op_eq a b calls := ((payload a =? payload b)%Z, S calls);
  op_ne a b calls := (negb (payload a =? payload b)%Z, S calls);
  op_le a b calls := ((payload a <=? payload b)%Z, S calls);
  op_ge a b calls := ((payload a >=? payload b)%Z, S calls);
  op_lt a b calls := ((payload a <? payload b)%Z, S calls);
  op_gt a b calls := ((payload a >? payload b)%Z, S calls)
|}.

(** The state a program starts in. *)
Definition initially {World} (w : World) : State World := mk_State w 0.

(* ================================================================== *)
(** ** Using a result

    After [finish()] a caller can print a result, negate it, or ask for
    its boolean, in any order and any number of times. *)

Inductive result (E : Type) :=
| Plain (d : Decomposition E)
| Negated (n : NegatedDecomposition E).
Arguments Plain {E}.
Arguments Negated {E}.

(** The [code], [expression] and [value] members of either result. *)
Definition members {E} (r : result E) : Decomposition E :=
  match r with
  | Plain d => d
  | Negated n => base_object n
  end.

Inductive use := Print | Negate | Query.

Record session (E : Type) := mk_session {
  subject : result E;
  output : ostream;
  answers : list bool
}.
Arguments mk_session {E}.
Arguments subject {E}.
Arguments output {E}.
Arguments answers {E}.

Definition apply_use {E} `{Streamable E} (k : session E) (u : use) : session E :=
  match u, subject k with
  | Print, Plain d => mk_session (subject k) (output k << d) (answers k)
  | Print, Negated n => mk_session (subject k) (output k << n) (answers k)
  | Negate, Plain d =>
      mk_session (Negated (Decomposition_operator_not d)) (output k) (answers k)
  | Negate, Negated n =>
      mk_session (Plain (NegatedDecomposition_operator_not n)) (output k) (answers k)
  | Query, Plain d =>
      mk_session (subject k) (output k) (Decomposition_operator_bool d :: answers k)
  | Query, Negated n =>
      mk_session (subject k) (output k) (NegatedDecomposition_operator_bool n :: answers k)
  end.

Definition apply_uses {E} `{Streamable E} (us : list use) (k : session E) : session E :=
  fold_left apply_use us k.

(** [auto r = verify(...);] followed by the uses [us] of [r]. *)
Definition then_use {World E} `{Streamable E}
  (finish : M World (Decomposition E)) (os : ostream) (us : list use) :
  M World (session E) :=
  d <- finish ;;
  ret (apply_uses us (mk_session (Plain d) os [])).

(* ================================================================== *)
(** ** The macro [verify(x)]

    [#define verify(x) ((CppVerify::decompose(#x) << x).finish())] pastes
    the tokens of [x] behind [decompose(#x) <<] without parentheses, so
    the grouping of the expansion is decided by the precedence of the
    binary operators written in [x]. *)

(** The binary operators of an expression, tightest first. *)
Inductive binop :=
| Mul | Div | Rem
| Add | Sub
| Shl | Shr
| Lt | Gt | Le | Ge
| Eq | Ne
| BitAnd
| BitXor
| BitOr
| LogAnd
| LogOr
| Assign.

(** The row of the operator in the precedence table of the language:
    row 5 (multiplicative) groups before row 6 (additive), and so on down
    to row 16 (assignment). *)
Definition level (o : binop) : nat :=
  match o with
  | Mul | Div | Rem => 5
  | Add | Sub => 6
  | Shl | Shr => 7
  | Lt | Gt | Le | Ge => 9
  | Eq | Ne => 10
  | BitAnd => 11
  | BitXor => 12
  | BitOr => 13
  | LogAnd => 14
  | LogOr => 15
  | Assign => 16
  end.

Definition right_associative (o : binop) : bool :=
  match o with
  | Assign => true
  | _ => false
  end.

(** [a] has higher precedence than [b]: it groups first. *)
Definition higher_precedence (a b : binop) : bool := Nat.ltb (level a) (level b).

(** [a] has lower precedence than [b]. *)
Definition lower_precedence (a b : binop) : bool := higher_precedence b a.

Definition is_comparison (o : binop) : bool :=
  match o with
  | Lt | Gt | Le | Ge | Eq | Ne => true
  | _ => false
  end.

Definition is_arithmetic (o : binop) : bool :=
  match o with
  | Mul | Div | Rem | Add | Sub => true
  | _ => false
  end.

(** An expression as written: its spelling, and a sequence of operands
    separated by binary operators.  An operand here is anything that
    groups before every binary operator (a name, a literal, a call, a
    parenthesised or unary expression), given by its value. *)
Record written (value : Type) := mk_written {
  spelling : string;
  head : value;
  tail : list (binop * value)
}.
Arguments mk_written {value}.
Arguments spelling {value}.
Arguments head {value}.
Arguments tail {value}.

Inductive tree (A : Type) :=
| Leaf (a : A)
| Node (o : binop) (l r : tree A).
Arguments Leaf {A}.
Arguments Node {A}.

(** With [... o' r] parsed so far, does a following [o] take [r] as its
    left operand? *)
Definition takes_right_operand (o' o : binop) : bool :=
  higher_precedence o o' || (Nat.eqb (level o) (level o') && right_associative o).

(** Extend a parsed expression by one more operator and operand. *)
Fixpoint attach {A} (t : tree A) (o : binop) (a : A) : tree A :=
  match t with
  | Node o' l r =>
      if takes_right_operand o' o then Node o' l (attach r o a)
      else Node o t (Leaf a)
  | Leaf _ => Node o t (Leaf a)
  end.

Definition extend {A} (t : tree A) (p : binop * A) : tree A :=
  attach t (fst p) (snd p).

Definition parse {A} (first : A) (rest : list (binop * A)) : tree A :=
  fold_left extend rest (Leaf first).

Fixpoint tree_map {A B} (f : A -> B) (t : tree A) : tree B :=
  match t with
  | Leaf a => Leaf (f a)
  | Node o l r => Node o (tree_map f l) (tree_map f r)
  end.

(** The leaves of the expansion: the [decompose(#x)] temporary and the
    operands of [x]. *)
Inductive item (value : Type) :=
| Decompose (d : decompose)
| Operand (v : value).
Arguments Decompose {value}.
Arguments Operand {value}.

Definition operand_of {A B} (f : A -> B) (p : binop * A) : binop * B :=
  (fst p, f (snd p)).

(** [decompose(#x) << x], parsed. *)
Definition expansion {value} (x : written value) : tree (item value) :=
  parse (Decompose (mk_decompose (spelling x)))
        ((Shl, Operand (head x)) :: map (operand_of Operand) (tail x)).

(** The operators [FirstOperand] declares, with the tag each one puts
    into the [SecondOperand]. *)
Definition FirstOperand_declares (o : binop) : option comparator :=
  match o with
  | Eq => Some EQ
  | Ne => Some NE
  | Le => Some LE
  | Ge => Some GE
  | Lt => Some LT
  | Gt => Some GT
  | _ => None
  end.

(** What a sub-expression of the expansion denotes. *)
Inductive captured (value : Type) :=
| Value (v : value)
| Decomposer (d : decompose)
| First (f : FirstOperand value)
| Second (C : comparator) (s : SecondOperand value C value).
Arguments Value {value}.
Arguments Decomposer {value}.
Arguments First {value}.
Arguments Second {value}.

(** What [verify(x)] yields: the decomposition of a unary or of a binary
    node. *)
Inductive outcome (value : Type) :=
| UnaryOutcome (d : Decomposition (UnaryExpression value))
| BinaryOutcome (C : comparator) (d : Decomposition (BinaryExpression value C value)).
Arguments UnaryOutcome {value}.
Arguments BinaryOutcome {value}.

Section Macro.
Context {World value : Type}.
Context `{BoolConvertible World value} `{Comparable World value value}.

(** The operators of the operand type itself. *)
Variable builtin : binop -> value -> value -> value.

(** Overload resolution for [a o b]; [None]: no operator matches and
    the program is ill-formed. *)
Definition apply_operator (o : binop) (a b : captured value) :
  option (captured value) :=
  match a, b with
  | Value x, Value y => Some (Value (builtin o x y))
  | Decomposer d, Value x =>
      match o with
      | Shl => Some (First (decompose_operator_shl d x))
      | _ => None
      end
  | First f, Value y =>
      match FirstOperand_declares o with
      | Some C => Some (Second C (FirstOperand_operator C f y))
      | None => None
      end
  | _, _ => None
  end.

Fixpoint elaborate (t : tree (item value)) : option (captured value) :=
  match t with
  | Leaf (Decompose d) => Some (Decomposer d)
  | Leaf (Operand v) => Some (Value v)
  | Node o l r =>
      match elaborate l, elaborate r with
      | Some a, Some b => apply_operator o a b
      | _, _ => None
      end
  end.

(** The value of an operand sub-expression. *)
Fixpoint builtin_value (t : tree value) : value :=
  match t with
  | Leaf v => v
  | Node o l r => builtin o (builtin_value l) (builtin_value r)
  end.

(** The member call [.finish()]; [None]: no such member. *)
Definition call_finish (c : captured value) : option (M World (outcome value)) :=
  match c with
  | First f => Some (d <- FirstOperand_finish f ;; ret (UnaryOutcome d))
  | Second C s => Some (d <- SecondOperand_finish s ;; ret (BinaryOutcome C d))
  | Value _ | Decomposer _ => None
  end.

(** [verify(x)]: [None] when the expansion does not compile, otherwise
    the computation it performs. *)
Definition verify (x : written value) : option (M World (outcome value)) :=
  match elaborate (expansion x) with
  | Some c => call_finish c
  | None => None
  end.

End Macro.

(** The built-in operators of [int], for operands whose results stay in
    range; comparisons and logical operators yield 1 or 0. *)
Definition builtin_int (o : binop) (a b : Z) : Z :=
  (match o with
   | Mul => a * b
   | Div => Z.quot a b
   | Rem => Z.rem a b
   | Add => a + b
   | Sub => a - b
   | Shl => Z.shiftl a b
   | Shr => Z.shiftr a b
   | Lt => Z.b2z (a <? b)
   | Gt => Z.b2z (a >? b)
   | Le => Z.b2z (a <=? b)
   | Ge => Z.b2z (a >=? b)
   | Eq => Z.b2z (a =? b)
   | Ne => Z.b2z (negb (a =? b))
   | BitAnd => Z.land a b
   | BitXor => Z.lxor a b
   | BitOr => Z.lor a b
   | LogAnd => Z.b2z (negb (a =? 0) && negb (b =? 0))
   | LogOr => Z.b2z (negb (a =? 0) || negb (b =? 0))
   | Assign => b
   end)%Z.

(** The trees the expansion can produce: the [decompose] temporary at the
    far left, operand sub-expressions on every right. *)
Inductive expansion_shape {value} : tree (item value) -> Prop :=
| shape_start (d : decompose) : expansion_shape (Leaf (Decompose d))
| shape_step (t : tree (item value)) (o : binop) (r : tree value) :
    expansion_shape t -> expansion_shape (Node o t (tree_map Operand r)).

(* ================================================================== *)
(** ** Spelling of the operators *)

(** The token a caller writes for each operator. *)
Definition token (o : binop) : string :=
  match o with
  | Mul => "*" | Div => "/" | Rem => "%"
  | Add => "+" | Sub => "-"
  | Shl => "<<" | Shr => ">>"
  | Lt => "<" | Gt => ">" | Le => "<=" | Ge => ">="
  | Eq => "==" | Ne => "!="
  | BitAnd => "&"
  | BitXor => "^"
  | BitOr => "|"
  | LogAnd => "&&"
  | LogOr => "||"
  | Assign => "="
  end.

(* ================================================================== *)
(** ** A result of either kind *)

(** [!r], on whichever of the two result types [r] has. *)
Definition negate {E} (r : result E) : result E :=
  match r with
  | Plain d => Negated (Decomposition_operator_not d)
  | Negated n => Plain (NegatedDecomposition_operator_not n)
  end.

(** [static_cast<bool>(r)], likewise. *)
Definition observed {E} (r : result E) : bool :=
  match r with
  | Plain d => Decomposition_operator_bool d
  | Negated n => NegatedDecomposition_operator_bool n
  end.

(** The boolean and the source text of what [verify(x)] returned. *)
Definition outcome_bool {value} (r : outcome value) : bool :=
  match r with
  | UnaryOutcome d => Decomposition_operator_bool d
  | BinaryOutcome _ d => Decomposition_operator_bool d
  end.

Definition outcome_code {value} (r : outcome value) : string :=
  match r with
  | UnaryOutcome d => code d
  | BinaryOutcome _ d => code d
  end.

(* ================================================================== *)
(** ** [tests/verify.test.cpp] *)

(** The values of an [int]. *)
Definition INT_MIN : Z := (- 2 ^ 31)%Z.
Definition INT_MAX : Z := (2 ^ 31 - 1)%Z.
Definition is_int (z : Z) : Prop := (INT_MIN <= z <= INT_MAX)%Z.

(** [!a] and [(bool)(a)] on an [int]. *)
Definition int_not (a : Z) : bool := (a =? 0)%Z.
Definition int_to_bool (a : Z) : bool := negb (a =? 0)%Z.

(** A test case yields the outcomes of its [CHECK]s, in order; a
    [CHECK] that fails does not end the test case. *)

(** [TEST_CASE("verify() of cast-to-bool")], for the global [a]. *)
Definition test_cast_to_bool {World} (a : Z) : M World (list bool) :=
  v1 <- verify_unary "a" a ;;
  v2 <- verify_unary "a" a ;;
  v3 <- verify_unary "!a" (int_not a) ;;
  v4 <- verify_unary "!a" (int_not a) ;;
  v5 <- verify_unary "!!a" (negb (int_not a)) ;;
  v6 <- verify_unary "!!a" (negb (int_not a)) ;;
  v7 <- verify_unary "(bool)(a)" (int_to_bool a) ;;
  v8 <- verify_unary "(bool)(a)" (int_to_bool a) ;;
  v9 <- verify_unary "static_cast<bool>(a)" (int_to_bool a) ;;
  v10 <- verify_unary "static_cast<bool>(a)" (int_to_bool a) ;;
  ret [ Decomposition_operator_bool v1;
        negb (NegatedDecomposition_operator_bool (Decomposition_operator_not v2));
        negb (Decomposition_operator_bool v3);
        NegatedDecomposition_operator_bool (Decomposition_operator_not v4);
        Decomposition_operator_bool v5;
        negb (NegatedDecomposition_operator_bool (Decomposition_operator_not v6));
        Decomposition_operator_bool v7;
        negb (NegatedDecomposition_operator_bool (Decomposition_operator_not v8));
        Decomposition_operator_bool v9;
        negb (NegatedDecomposition_operator_bool (Decomposition_operator_not v10)) ].

(** [TEST_CASE("verify() integer comparison")], for the globals [a], [b]. *)
Definition test_integer_comparison {World} (a b : Z) : M World (list bool) :=
  v1 <- verify_binary LT "a < b" a b ;;
  v2 <- verify_binary GT "b > a" b a ;;
  v3 <- verify_binary LE "a <= b" a b ;;
  v4 <- verify_binary GE "b >= a" b a ;;
  v5 <- verify_binary NE "a != b" a b ;;
  v6 <- verify_binary EQ "a == b" a b ;;
  ret [ Decomposition_operator_bool v1;
        Decomposition_operator_bool v2;
        Decomposition_operator_bool v3;
        Decomposition_operator_bool v4;
        Decomposition_operator_bool v5;
        negb (Decomposition_operator_bool v6) ].

(** What a call does: it returns a value, or its behaviour is
    undefined. *)
Inductive behaviour (A : Type) :=
| Returns (a : A)
| Undefined.
Arguments Returns {A}.
Arguments Undefined {A}.

(** [x / y] on [int]: the quotient truncated towards zero; undefined for
    a zero divisor and for a quotient that is no [int]. *)
Definition int_divide (x y : Z) : behaviour Z :=
  if (y =? 0)%Z then Undefined
  else if ((x =? INT_MIN) && (y =? -1))%Z then Undefined
  else Returns (Z.quot x y).

(** [int divide(int x, int y)].  In the branch that throws, the message
    is made by [os << fail], which prints the node of [fail]; its second
    operand refers to the literal [0] of the condition, a temporary that
    ended with the condition, so the behaviour of that branch is
    undefined. *)
Definition divide {World} (x y : Z) : M World (behaviour Z) :=
  v <- verify_binary NE "y != 0" y 0%Z ;;
  let fail := Decomposition_operator_not v in
  if NegatedDecomposition_operator_bool fail then
    ret Undefined
  else
    ret (int_divide x y).

(** The counters [foo_calls] and [bar_calls]. *)
Record counters := mk_counters {
  foo_calls : nat;
  bar_calls : nat
}.

(** [int foo()] and [int bar()], for the globals [a] and [b]. *)
Definition foo (a : Z) : counters -> Z * counters :=
  fun w => (a, mk_counters (S (foo_calls w)) (bar_calls w)).

Definition bar (b : Z) : counters -> Z * counters :=
  fun w => (b, mk_counters (foo_calls w) (S (bar_calls w))).

(** The two operands of [<] are evaluated in one order or the other. *)
Inductive operand_order := foo_first | bar_first.

(** [verify(foo() < bar())] *)
Definition verify_foo_lt_bar (order : operand_order) (a b : Z) :
  M counters (Decomposition (BinaryExpression Z LT Z)) :=
  match order with
  | foo_first =>
      x <- native (foo a) ;; y <- native (bar b) ;;
      verify_binary LT "foo() < bar()" x y
  | bar_first =>
      y <- native (bar b) ;; x <- native (foo a) ;;
      verify_binary LT "foo() < bar()" x y
  end.

(** [CHECK(foo_calls == n)] and [CHECK(bar_calls == n)] *)
Definition check_foo_calls (n : nat) : M counters bool :=
  native (fun w => (Nat.eqb (foo_calls w) n, w)).
Definition check_bar_calls (n : nat) : M counters bool :=
  native (fun w => (Nat.eqb (bar_calls w) n, w)).

(** [TEST_CASE("verify() of function calls")] *)
Definition test_function_calls (first second : operand_order) (a b : Z) :
  M counters (list bool) :=
  native (fun _ => (tt, mk_counters 0 0)) ;;
  pass1 <- verify_foo_lt_bar first a b ;;
  let c1 := Decomposition_operator_bool pass1 in
  c2 <- check_foo_calls 1 ;;
  c3 <- check_bar_calls 1 ;;
  let fail := Decomposition_operator_not pass1 in
  let c4 := negb (NegatedDecomposition_operator_bool fail) in
  let c5 := Decomposition_operator_bool (NegatedDecomposition_operator_not fail) in
  let c6 := Decomposition_operator_bool
              (NegatedDecomposition_operator_not (Decomposition_operator_not pass1)) in
  let c7 := negb (NegatedDecomposition_operator_bool
                    (Decomposition_operator_not
                       (NegatedDecomposition_operator_not
                          (Decomposition_operator_not pass1)))) in
  c8 <- check_foo_calls 1 ;;
  c9 <- check_bar_calls 1 ;;
  pass2 <- verify_foo_lt_bar second a b ;;
  let c10 := Decomposition_operator_bool pass2 in
  c11 <- check_foo_calls 2 ;;
  c12 <- check_bar_calls 2 ;;
  ret [c1; c2; c3; c4; c5; c6; c7; c8; c9; c10; c11; c12].

(* ================================================================== *)
(** ** [tests/pretty-file.h] *)

(** [s] without its first [n] characters. *)
Fixpoint drop (n : nat) (s : string) : string :=
  match n, s with
  | O, _ => s
  | S n', String _ s' => drop n' s'
  | S _, EmptyString => EmptyString
  end.

(** [sizeof] of a string literal: its characters and the terminating
    zero. *)
Definition sizeof_literal (s : string) : nat := S (String.length s).

(** [&file[n]] read as a string: the characters of [file] from index [n]
    on; [None] when [n] is past the terminating zero of [file]. *)
Definition address_of_index (file : string) (n : nat) : option string :=
  if Nat.leb n (String.length file) then Some (drop n file) else None.

(** [__PRETTY_FILE__], with [PROJECT_SOURCE_DIR] defined or not. *)
Definition PRETTY_FILE (PROJECT_SOURCE_DIR : option string) (FILE : string) :
  option string :=
  match PROJECT_SOURCE_DIR with
  | Some dir => address_of_index FILE (sizeof_literal dir)
  | None => Some FILE
  end.

(** The operator at the root of a tree, if it has one, satisfies [P]. *)
Definition root_satisfies {A} (P : binop -> Prop) (t : tree A) : Prop :=
  match t with
  | Leaf _ => True
  | Node o _ _ => P o
  end.

(** A printer whose text is padded as one field.  On a good destination
    a pending width puts the missing fill characters after the whole
    text when the destination is [left], before the whole text
    otherwise, and is then reset; a destination that is not good is left
    as it is. *)
Definition pads_as_one_field (T : Type) `{Streamable T} : Prop :=
  forall (os : ostream) (x : T),
    (good os = true ->
     buffer (os << x)
     = buffer os
       ++ match adjust (flags os) with
          | adjust_left =>
              rendered x
              ++ replicate (width os - String.length (rendered x)) (fill os)
          | unadjusted | adjust_right | adjust_internal =>
              replicate (width os - String.length (rendered x)) (fill os)
              ++ rendered x
          end
     /\ width (os << x) = 0)
    /\ (good os = false -> os << x = os).

(* ================================================================== *)
(** ** Facts about text *)

Lemma append_empty_r (s : string) : s ++ "" = s.
Proof. induction s as [|c s IH]; simpl; [reflexivity | now rewrite IH]. Qed.

Lemma append_assoc (a b c : string) : (a ++ b) ++ c = a ++ (b ++ c).
Proof. induction a as [|x a IH]; simpl; [reflexivity | now rewrite IH]. Qed.

Lemma length_append (a b : string) :
  String.length (a ++ b) = String.length a + String.length b.
Proof. induction a as [|x a IH]; simpl; [reflexivity | now rewrite IH]. Qed.

Lemma ends_with_append (suffix a b : string) :
  String.length suffix <= String.length b ->
  ends_with suffix (a ++ b) = ends_with suffix b.
Proof.
  intros Hlen. induction a as [|x a IH]; [reflexivity|].
  cbn [append ends_with]. rewrite IH.
  destruct (String.eqb_spec (String x (a ++ b)) suffix) as [E|_]; [|reflexivity].
  apply (f_equal String.length) in E. simpl in E. rewrite length_append in E. lia.
Qed.

(* ================================================================== *)
(** ** Facts about the stream *)

Lemma pad_no_width (os : ostream) (s : string) : width os = 0 -> pad os s = s.
Proof.
  intros W. unfold pad. rewrite W.
  destruct (adjust (flags os)); simpl; auto using append_empty_r.
Qed.

Lemma rendered_insert_string (s : string) : str (insert_string stringstream s) = s.
Proof. reflexivity. Qed.

Lemma buffer_insert_string (os : ostream) (s : string) :
  good os = true -> width os = 0 -> buffer (insert_string os s) = buffer os ++ s.
Proof.
  intros G W. unfold insert_string. rewrite G. simpl. now rewrite pad_no_width.
Qed.

Lemma UnaryExpression_inserts_finished_string T `{Streamable T} :
  inserts_finished_string (UnaryExpression T).
Proof. intros os x. reflexivity. Qed.

Lemma BinaryExpression_inserts_finished_string L C R `{Streamable L} `{Streamable R} :
  inserts_finished_string (BinaryExpression L C R).
Proof. intros os x. reflexivity. Qed.

Lemma Decomposition_inserts_finished_string E `{Streamable E} :
  inserts_finished_string (Decomposition E).
Proof. intros os x. reflexivity. Qed.

Lemma NegatedDecomposition_inserts_finished_string E `{Streamable E} :
  inserts_finished_string (NegatedDecomposition E).
Proof. intros os x. reflexivity. Qed.

(** The text of a node is the text its operands leave in the node's own
    local stream. *)
Lemma rendered_UnaryExpression T `{Streamable T} (e : UnaryExpression T) :
  rendered e = str (stringstream << operand e).
Proof. reflexivity. Qed.

Lemma rendered_BinaryExpression L C R `{Streamable L} `{Streamable R}
  (e : BinaryExpression L C R) :
  rendered e = str (stringstream << operand1 e << C << operand2 e).
Proof. reflexivity. Qed.

(** The exact format, for any node whose printer inserts a finished
    string. *)
Lemma rendered_Decomposition E `{Streamable E} (d : Decomposition E) :
  inserts_finished_string E ->
  rendered d =
    "verify(" ++ code d ++ ") => verify(" ++ rendered (expression d) ++ ") => "
    ++ bool_text (value d).
Proof.
  intros HE. unfold rendered at 1.
  change (stringstream << d) with
    (insert_string stringstream
       (str (stringstream << std_boolalpha << "verify(" << code d << ") => verify("
                          << expression d << ") => " << value d))).
  rewrite rendered_insert_string, HE.
  cbn. rewrite !append_assoc. reflexivity.
Qed.

Lemma rendered_NegatedDecomposition E `{Streamable E} (n : NegatedDecomposition E) :
  inserts_finished_string E ->
  rendered n =
    "!verify(" ++ code (base_object n) ++ ") => !verify("
    ++ rendered (expression (base_object n)) ++ ") => "
    ++ bool_text (negb (value (base_object n))).
Proof.
  intros HE. unfold rendered at 1.
  change (stringstream << n) with
    (insert_string stringstream
       (str (stringstream << std_boolalpha << "!verify(" << code (base_object n)
                          << ") => !verify(" << expression (base_object n)
                          << ") => " << negb (value (base_object n))))).
  rewrite rendered_insert_string, HE.
  cbn. rewrite !append_assoc. reflexivity.
Qed.

(* ================================================================== *)
(** ** Facts about evaluation *)

Lemma members_apply_use E `{Streamable E} (k : session E) (u : use) :
  members (subject (apply_use k u)) = members (subject k).
Proof.
  destruct k as [[[c e v]|[[c e v]]] os bs], u; reflexivity.
Qed.

Lemma members_apply_uses E `{Streamable E} (us : list use) (k : session E) :
  members (subject (apply_uses us k)) = members (subject k).
Proof.
  revert k. induction us as [|u us IH]; intros k; [reflexivity|].
  unfold apply_uses in *. simpl. rewrite IH. apply members_apply_use.
Qed.

Lemma make_decomposition_run World E `{Expression World E}
  (src : string) (x : E) (s : State World) :
  make_decomposition src x s =
    (mk_Decomposition src x (fst (evaluate x s)), snd (evaluate x s)).
Proof. unfold make_decomposition, bind, ret. destruct (evaluate x s); reflexivity. Qed.

Lemma UnaryExpression_evaluate_run World T `{BoolConvertible World T}
  (e : UnaryExpression T) (s : State World) :
  evaluate e s =
    (fst (to_bool (operand e) (world s)),
     mk_State (snd (to_bool (operand e) (world s))) (S (evaluate_calls s))).
Proof.
  unfold evaluate, UnaryExpression_evaluate, bind, enter_evaluate, native. simpl.
  destruct (to_bool (operand e) (world s)); reflexivity.
Qed.

Lemma BinaryExpression_evaluate_run World L C R `{Comparable World L R}
  (e : BinaryExpression L C R) (s : State World) :
  evaluate e s =
    (fst (native_comparison C (operand1 e) (operand2 e) (world s)),
     mk_State (snd (native_comparison C (operand1 e) (operand2 e) (world s)))
              (S (evaluate_calls s))).
Proof.
  unfold evaluate, BinaryExpression_evaluate, bind, enter_evaluate. simpl.
  destruct C; simpl;
    unfold EQ_evaluate, NE_evaluate, LE_evaluate, GE_evaluate, LT_evaluate,
           GT_evaluate, native; simpl;
    match goal with |- context [?f (operand1 e) (operand2 e) (world s)] =>
      destruct (f (operand1 e) (operand2 e) (world s)) end; reflexivity.
Qed.

Lemma verify_unary_run World T `{BoolConvertible World T}
  (src : string) (x : T) (s : State World) :
  verify_unary src x s =
    (mk_Decomposition src (mk_UnaryExpression x) (fst (to_bool x (world s))),
     mk_State (snd (to_bool x (world s))) (S (evaluate_calls s))).
Proof.
  unfold verify_unary, FirstOperand_finish, decompose_operator_shl. simpl.
  rewrite make_decomposition_run, UnaryExpression_evaluate_run. reflexivity.
Qed.

Lemma verify_binary_run World T1 T2 `{Comparable World T1 T2}
  (C : comparator) (src : string) (x : T1) (y : T2) (s : State World) :
  verify_binary C src x y s =
    (mk_Decomposition src (mk_BinaryExpression C x y)
       (fst (native_comparison C x y (world s))),
     mk_State (snd (native_comparison C x y (world s))) (S (evaluate_calls s))).
Proof.
  unfold verify_binary, SecondOperand_finish, decompose_operator_shl.
  destruct C; simpl;
    rewrite make_decomposition_run, BinaryExpression_evaluate_run; reflexivity.
Qed.

(* ================================================================== *)
(** ** Facts about the grouping of the expansion *)

Lemma higher_takes_right_operand (o' o : binop) :
  higher_precedence o o' = true -> takes_right_operand o' o = true.
Proof. intros Hh. unfold takes_right_operand. now rewrite Hh. Qed.

Lemma attach_tree_map A B (f : A -> B) (t : tree A) (o : binop) (a : A) :
  tree_map f (attach t o a) = attach (tree_map f t) o (f a).
Proof.
  induction t as [x|o' l IHl r IHr]; simpl; [reflexivity|].
  destruct (takes_right_operand o' o); simpl; [now rewrite IHr | reflexivity].
Qed.

Lemma fold_extend_tree_map A B (f : A -> B) (rest : list (binop * A)) (t : tree A) :
  fold_left extend (map (operand_of f) rest) (tree_map f t) =
  tree_map f (fold_left extend rest t).
Proof.
  revert t. induction rest as [|[o a] rest IH]; intros t; simpl; [reflexivity|].
  unfold extend at 2 4. simpl. rewrite <- attach_tree_map. apply IH.
Qed.

(** Operators that group before [o'] stay inside its right operand. *)
Lemma fold_extend_under A (o' : binop) (l : tree A) (rest : list (binop * A)) :
  Forall (fun p => takes_right_operand o' (fst p) = true) rest ->
  forall r, fold_left extend rest (Node o' l r) = Node o' l (fold_left extend rest r).
Proof.
  induction 1 as [|[o a] rest Ho _ IH]; intros r; simpl; [reflexivity|].
  unfold extend at 2 4. simpl in *. rewrite Ho. apply IH.
Qed.

Lemma Forall_higher_takes_right A (o' : binop) (rest : list (binop * A)) :
  Forall (fun p => higher_precedence (fst p) o' = true) rest ->
  Forall (fun p => takes_right_operand o' (fst p) = true) rest.
Proof.
  intros Hall. eapply Forall_impl; [|exact Hall].
  intros p. apply higher_takes_right_operand.
Qed.

Lemma Forall_operand_of A B (f : A -> B) (P : binop -> Prop) (rest : list (binop * A)) :
  Forall (fun p => P (fst p)) rest ->
  Forall (fun p => P (fst p)) (map (operand_of f) rest).
Proof. induction 1; simpl; constructor; assumption. Qed.

(** With nothing but tighter operators written, the capture operator
    takes the whole of [x] as its right operand. *)
Lemma expansion_whole value (src : string) (h : value) (xs : list (binop * value)) :
  Forall (fun p => higher_precedence (fst p) Shl = true) xs ->
  expansion (mk_written src h xs) =
    Node Shl (Leaf (Decompose (mk_decompose src))) (tree_map Operand (parse h xs)).
Proof.
  intros Hxs. unfold expansion, parse. simpl. unfold extend at 2. simpl.
  rewrite fold_extend_under.
  - f_equal. apply (fold_extend_tree_map _ _ Operand xs (Leaf h)).
  - apply (Forall_operand_of _ _ Operand (fun o => takes_right_operand Shl o = true)).
    now apply Forall_higher_takes_right.
Qed.

(** The first operator that does not group before the capture operator
    is applied to the capture of everything written before it. *)
Lemma expansion_split value (src : string) (h : value) (xs : list (binop * value))
  (o : binop) (y : value) (ys : list (binop * value)) :
  Forall (fun p => higher_precedence (fst p) Shl = true) xs ->
  takes_right_operand Shl o = false ->
  Forall (fun p => higher_precedence (fst p) o = true) ys ->
  expansion (mk_written src h (xs ++ (o, y) :: ys)) =
    Node o
      (Node Shl (Leaf (Decompose (mk_decompose src))) (tree_map Operand (parse h xs)))
      (tree_map Operand (parse y ys)).
Proof.
  intros Hxs Ho Hys.
  pose proof (expansion_whole value src h xs Hxs) as Hw.
  unfold expansion, parse in *. simpl in *.
  rewrite map_app, fold_left_app. rewrite Hw. simpl.
  unfold extend at 2. simpl. rewrite Ho.
  rewrite fold_extend_under.
  - f_equal. apply (fold_extend_tree_map _ _ Operand ys (Leaf y)).
  - apply (Forall_operand_of _ _ Operand (fun o' => takes_right_operand o o' = true)).
    now apply Forall_higher_takes_right.
Qed.

Lemma attach_expansion_shape value (t : tree (item value)) (o : binop) (v : value) :
  expansion_shape t -> expansion_shape (attach t o (Operand v)).
Proof.
  induction 1 as [d|t o' r Ht IH]; simpl.
  - apply (shape_step _ o (Leaf v)). constructor.
  - destruct (takes_right_operand o' o).
    + rewrite <- attach_tree_map. now constructor.
    + apply (shape_step _ o (Leaf v)). now constructor.
Qed.

Section MacroFacts.
Context {World value : Type}.
Context `{BoolConvertible World value} `{Comparable World value value}.
Variable builtin : binop -> value -> value -> value.

Lemma elaborate_operands (t : tree value) :
  elaborate builtin (tree_map Operand t) = Some (Value (builtin_value builtin t)).
Proof.
  induction t as [v|o l IHl r IHr]; simpl; [reflexivity|].
  now rewrite IHl, IHr.
Qed.

(** Whether an operator applies does not depend on the value of its
    right operand. *)
Lemma apply_operator_rejects (o : binop) (a : captured value) (x y : value) :
  apply_operator builtin o a (Value x) = None ->
  apply_operator builtin o a (Value y) = None.
Proof.
  destruct a as [v|d|f|C s]; simpl; try discriminate; try reflexivity.
  - destruct o; try reflexivity; discriminate.
  - destruct (FirstOperand_declares o); [discriminate | reflexivity].
Qed.

(** Once a prefix of the expansion is ill-formed, nothing written
    after it repairs it. *)
Lemma attach_stays_rejected (t : tree (item value)) (o : binop) (v : value) :
  expansion_shape t ->
  elaborate builtin t = None ->
  elaborate builtin (attach t o (Operand v)) = None.
Proof.
  induction 1 as [d|t o' r Ht IH]; intros Hnone; simpl in *; [discriminate|].
  destruct (takes_right_operand o' o); simpl.
  - rewrite <- attach_tree_map, elaborate_operands.
    rewrite elaborate_operands in Hnone.
    destruct (elaborate builtin t) as [a|]; [|reflexivity].
    eapply apply_operator_rejects; eassumption.
  - now rewrite Hnone.
Qed.

Lemma fold_extend_stays_rejected (rest : list (binop * value)) :
  forall t : tree (item value),
    expansion_shape t ->
    elaborate builtin t = None ->
    elaborate builtin (fold_left extend (map (operand_of Operand) rest) t) = None.
Proof.
  induction rest as [|[o v] rest IH]; intros t Hshape Hnone; simpl; [assumption|].
  apply IH.
  - now apply attach_expansion_shape.
  - now apply attach_stays_rejected.
Qed.

Lemma verify_whole (src : string) (h : value) (xs : list (binop * value)) :
  Forall (fun p => higher_precedence (fst p) Shl = true) xs ->
  verify builtin (mk_written src h xs) =
    Some (d <- verify_unary src (builtin_value builtin (parse h xs)) ;;
          ret (UnaryOutcome d)).
Proof.
  intros Hxs. unfold verify. rewrite expansion_whole by assumption.
  simpl. rewrite elaborate_operands. reflexivity.
Qed.

Lemma verify_comparison (src : string) (h : value) (xs : list (binop * value))
  (o : binop) (C : comparator) (y : value) (ys : list (binop * value)) :
  Forall (fun p => higher_precedence (fst p) Shl = true) xs ->
  FirstOperand_declares o = Some C ->
  Forall (fun p => higher_precedence (fst p) o = true) ys ->
  verify builtin (mk_written src h (xs ++ (o, y) :: ys)) =
    Some (d <- verify_binary C src (builtin_value builtin (parse h xs))
                                   (builtin_value builtin (parse y ys)) ;;
          ret (BinaryOutcome C d)).
Proof.
  intros Hxs HC Hys. unfold verify.
  rewrite expansion_split by (try assumption; destruct o; (discriminate || reflexivity)).
  simpl. rewrite !elaborate_operands. simpl. rewrite HC. reflexivity.
Qed.

Lemma verify_rejected (src : string) (h : value) (xs : list (binop * value))
  (o : binop) (y : value) (ys : list (binop * value)) :
  Forall (fun p => higher_precedence (fst p) Shl = true) xs ->
  takes_right_operand Shl o = false ->
  FirstOperand_declares o = None ->
  verify builtin (mk_written src h (xs ++ (o, y) :: ys)) = None.
Proof.
  intros Hxs Ho Hnone. unfold verify.
  enough (elaborate builtin (expansion (mk_written src h (xs ++ (o, y) :: ys))) = None)
    as -> by reflexivity.
  pose proof (expansion_split value src h xs o y [] Hxs Ho (Forall_nil _)) as Hsplit.
  unfold expansion, parse in *. simpl in *.
  rewrite map_app, fold_left_app in *. simpl in *.
  apply fold_extend_stays_rejected.
  - rewrite Hsplit.
    apply (shape_step _ o (Leaf y)). constructor. constructor.
  - rewrite Hsplit. simpl. rewrite elaborate_operands. simpl.
    now rewrite Hnone.
Qed.

End MacroFacts.

(** Split a sequence at its first operator that fails [P]. *)
Lemma split_at_first A (P : binop -> bool) (l : list (binop * A)) :
  exists xs rest,
    l = (xs ++ rest)%list
    /\ Forall (fun p => P (fst p) = true) xs
    /\ (rest = [] \/ exists o y ys, rest = (o, y) :: ys /\ P o = false).
Proof.
  induction l as [|[o y] l (xs & rest & -> & Hxs & Hrest)].
  - exists [], []. repeat split; auto.
  - destruct (P o) eqn:Po.
    + exists ((o, y) :: xs), rest. repeat split; auto.
    + exists [], ((o, y) :: xs ++ rest)%list. repeat split; auto.
      right. now exists o, y, (xs ++ rest)%list.
Qed.

Lemma comparison_not_in_right_operand (o : binop) (C : comparator) :
  FirstOperand_declares o = Some C -> takes_right_operand Shl o = false.
Proof. destruct o; (discriminate || reflexivity). Qed.

Lemma not_higher_than_capture (o : binop) :
  higher_precedence o Shl = false -> takes_right_operand Shl o = false.
Proof. destruct o; (discriminate || reflexivity). Qed.

Lemma not_higher_than_comparison (o o' : binop) (C : comparator) :
  FirstOperand_declares o = Some C ->
  higher_precedence o' o = false -> takes_right_operand o o' = false.
Proof. destruct o; try discriminate; destruct o'; (discriminate || reflexivity). Qed.

Section Acceptance.
Context {World value : Type}.
Context `{BoolConvertible World value} `{Comparable World value value}.
Variable builtin : binop -> value -> value -> value.

(** Nothing can follow a captured comparison except operators that
    group into its right operand. *)
Lemma verify_rejected_after_comparison (src : string) (h : value)
  (xs : list (binop * value)) (o : binop) (C : comparator) (y : value)
  (ys : list (binop * value)) (o2 : binop) (y2 : value) (zs : list (binop * value)) :
  Forall (fun p => higher_precedence (fst p) Shl = true) xs ->
  FirstOperand_declares o = Some C ->
  Forall (fun p => higher_precedence (fst p) o = true) ys ->
  higher_precedence o2 o = false ->
  verify builtin (mk_written src h (xs ++ (o, y) :: ys ++ (o2, y2) :: zs)) = None.
Proof.
  intros Hxs HC Hys Ho2. unfold verify.
  enough (elaborate builtin
            (expansion (mk_written src h (xs ++ (o, y) :: ys ++ (o2, y2) :: zs))) = None)
    as -> by reflexivity.
  pose proof (expansion_split value src h xs o y ys Hxs
                (comparison_not_in_right_operand o C HC) Hys) as Hsplit.
  pose proof (not_higher_than_comparison o o2 C HC Ho2) as Hgroup.
  unfold expansion, parse in *. simpl in *.
  replace (xs ++ (o, y) :: ys ++ (o2, y2) :: zs)%list
    with ((xs ++ (o, y) :: ys) ++ (o2, y2) :: zs)%list
    by (rewrite <- app_assoc; reflexivity).
  rewrite map_app, fold_left_app. rewrite Hsplit. simpl.
  apply fold_extend_stays_rejected.
  - unfold extend. simpl. rewrite Hgroup.
    apply (shape_step _ o2 (Leaf y2)).
    constructor. constructor. constructor.
  - unfold extend. simpl. rewrite Hgroup. simpl.
    rewrite !elaborate_operands. simpl. rewrite HC. reflexivity.
Qed.

(** The expressions [verify(x)] accepts are exactly the two shapes of
    the protocol: operands joined by operators that group before [<<],
    alone or followed by one comparison whose right side groups before
    that comparison. *)
Lemma verify_accepts_two_shapes (x : written value) (run : M World (outcome value)) :
  verify builtin x = Some run ->
  Forall (fun p => higher_precedence (fst p) Shl = true) (tail x)
  \/ exists xs o C y ys,
       tail x = (xs ++ (o, y) :: ys)%list
       /\ Forall (fun p => higher_precedence (fst p) Shl = true) xs
       /\ FirstOperand_declares o = Some C
       /\ Forall (fun p => higher_precedence (fst p) o = true) ys.
Proof.
  destruct x as [src h t]. simpl. intros Hrun.
  destruct (split_at_first value (fun o => higher_precedence o Shl) t)
    as (xs & rest & -> & Hxs & [->|(o & y & ys & -> & Ho)]).
  - left. now rewrite app_nil_r.
  - right. destruct (FirstOperand_declares o) as [C|] eqn:HC.
    + destruct (split_at_first value (fun o' => higher_precedence o' o) ys)
        as (ys1 & rest2 & -> & Hys1 & [->|(o2 & y2 & zs & -> & Ho2)]).
      * exists xs, o, C, y, ys1. rewrite app_nil_r. auto.
      * rewrite (verify_rejected_after_comparison src h xs o C y ys1 o2 y2 zs)
          in Hrun by assumption.
        discriminate.
    + rewrite (verify_rejected builtin src h xs o y ys) in Hrun
        by (try assumption; now apply not_higher_than_capture).
      discriminate.
Qed.

End Acceptance.

(* ================================================================== *)
(** ** The claims *)

Lemma decomposed_boolean_run World T1 T2 `{Comparable World T1 T2}
  (C : comparator) (src : string) (x : T1) (y : T2) (s : State World) :
  decomposed_boolean
    (FirstOperand_operator C (decompose_operator_shl (mk_decompose src) x) y) s
  = fst (native_comparison C x y (world s)).
Proof.
  unfold decomposed_boolean.
  change (SecondOperand_finish
            (FirstOperand_operator C (decompose_operator_shl (mk_decompose src) x) y))
    with (verify_binary C src x y).
  now rewrite verify_binary_run.
Qed.

(** C1. For operands [x], [y] of comparable types and each of the six
    comparison operators, the boolean obtained by decomposing [x op y]
    (the stored [value], which the conversion to [bool] returns) is the
    result of the operands' own [op], and the decomposition touches the
    world exactly as that one comparison does. *)
Theorem decomposed_comparison_is_native
  {World T1 T2} `{Comparable World T1 T2}
  (src : string) (x : T1) (y : T2) (s : State World) :
  let capture := decompose_operator_shl (mk_decompose src) x in
  decomposed_boolean (FirstOperand_operator_eq capture y) s = fst (op_eq x y (world s))
  /\ decomposed_boolean (FirstOperand_operator_ne capture y) s = fst (op_ne x y (world s))
  /\ decomposed_boolean (FirstOperand_operator_le capture y) s = fst (op_le x y (world s))
  /\ decomposed_boolean (FirstOperand_operator_ge capture y) s = fst (op_ge x y (world s))
  /\ decomposed_boolean (FirstOperand_operator_lt capture y) s = fst (op_lt x y (world s))
  /\ decomposed_boolean (FirstOperand_operator_gt capture y) s = fst (op_gt x y (world s))
  /\ forall C : comparator,
       value (fst (verify_binary C src x y s)) = fst (native_comparison C x y (world s))
       /\ Decomposition_operator_bool (fst (verify_binary C src x y s))
          = fst (native_comparison C x y (world s))
       /\ expression (fst (verify_binary C src x y s)) = mk_BinaryExpression C x y
       /\ world (snd (verify_binary C src x y s)) = snd (native_comparison C x y (world s)).
Proof.
  cbv zeta.
  split; [exact (decomposed_boolean_run World T1 T2 EQ src x y s)|].
  split; [exact (decomposed_boolean_run World T1 T2 NE src x y s)|].
  split; [exact (decomposed_boolean_run World T1 T2 LE src x y s)|].
  split; [exact (decomposed_boolean_run World T1 T2 GE src x y s)|].
  split; [exact (decomposed_boolean_run World T1 T2 LT src x y s)|].
  split; [exact (decomposed_boolean_run World T1 T2 GT src x y s)|].
  intros C. rewrite verify_binary_run. repeat split.
Qed.

(** C1 on the built-in [int]: the six decomposed booleans of [1 op 2]
    and of [2 op 2]. *)
Example decomposed_int_comparisons :
  map (fun C => value (fst (verify_binary C "a op b" 1%Z 2%Z (initially tt))))
      [EQ; NE; LE; GE; LT; GT] = [false; true; true; false; true; false]
  /\ map (fun C => value (fst (verify_binary C "b op b" 2%Z 2%Z (initially tt))))
      [EQ; NE; LE; GE; LT; GT] = [true; false; true; true; false; false].
Proof. split; reflexivity. Qed.

Lemma double_negation E (d : Decomposition E) :
  NegatedDecomposition_operator_not (Decomposition_operator_not d) = d.
Proof. destruct d; reflexivity. Qed.

Lemma double_negation_negated E (n : NegatedDecomposition E) :
  Decomposition_operator_not (NegatedDecomposition_operator_not n) = n.
Proof. destruct n as [[c e v]]; reflexivity. Qed.

Lemma bind_ret_id World A (f : A -> A) (c : M World A) (s : State World) :
  (forall a, f a = a) -> (a <- c ;; ret (f a)) s = c s.
Proof. intros Hf. unfold bind, ret. destruct (c s) as [a s']. now rewrite Hf. Qed.

Lemma bind_ret_state World A B (f : A -> B) (c : M World A) (s : State World) :
  snd ((a <- c ;; ret (f a)) s) = snd (c s).
Proof. unfold bind, ret. now destruct (c s). Qed.

Lemma bind_ret_value World A B (f : A -> B) (c : M World A) (s : State World) :
  fst ((a <- c ;; ret (f a)) s) = f (fst (c s)).
Proof. unfold bind, ret. now destruct (c s). Qed.

(** C2. Negation is an involution.  For a result [d] of any node type,
    [!!d] is [d] itself: the same [code], node and [value], hence the
    same boolean and the same printed text; the intermediate [!d] holds
    the same node; and [!!verify(E)] as a whole steps through exactly the
    states of [verify(E)], with the same result, so neither [!] evaluates
    anything. The same holds starting from a negated result. *)
Theorem double_negation_is_identity
  {World E} `{Expression World E} `{Streamable E}
  (src : string) (x : E) (d : Decomposition E) (n : NegatedDecomposition E)
  (s : State World) :
  NegatedDecomposition_operator_not (Decomposition_operator_not d) = d
  /\ Decomposition_operator_bool
       (NegatedDecomposition_operator_not (Decomposition_operator_not d))
     = Decomposition_operator_bool d
  /\ rendered (NegatedDecomposition_operator_not (Decomposition_operator_not d))
     = rendered d
  /\ value (NegatedDecomposition_operator_not (Decomposition_operator_not d)) = value d
  /\ expression (base_object (Decomposition_operator_not d)) = expression d
  /\ expression (NegatedDecomposition_operator_not (Decomposition_operator_not d))
     = expression d
  /\ Decomposition_operator_not (NegatedDecomposition_operator_not n) = n
  /\ (r <- make_decomposition src x ;;
      ret (NegatedDecomposition_operator_not (Decomposition_operator_not r))) s
     = make_decomposition src x s.
Proof.
  rewrite double_negation, double_negation_negated.
  repeat split.
  apply bind_ret_id. intros a. apply double_negation.
Qed.

(** C3. [evaluate()] runs exactly once, inside [finish()]: after
    [auto r = verify(...)] and any sequence of prints, negations and
    boolean queries of [r], the count of entries into [evaluate()] has
    grown by one, the world is the world after the operand's single
    conversion (unary node) or single comparison (binary node), and the
    [code], [expression] and [value] members of the result at hand are
    the ones [finish()] stored.  For any node type, the state after the
    uses is the state right after the one [x.evaluate()] of
    [make_decomposition]. *)
Theorem evaluate_runs_once_at_construction
  {World T T1 T2} `{BoolConvertible World T} `{Comparable World T1 T2}
  `{Streamable T} `{Streamable T1} `{Streamable T2}
  (C : comparator) (src : string) (x : T) (x1 : T1) (x2 : T2)
  (os : ostream) (us : list use) (s : State World) :
  (let after := then_use (verify_unary src x) os us s in
   evaluate_calls (snd after) = S (evaluate_calls s)
   /\ world (snd after) = snd (to_bool x (world s))
   /\ members (subject (fst after))
      = mk_Decomposition src (mk_UnaryExpression x) (fst (to_bool x (world s))))
  /\ (let after := then_use (verify_binary C src x1 x2) os us s in
      evaluate_calls (snd after) = S (evaluate_calls s)
      /\ world (snd after) = snd (native_comparison C x1 x2 (world s))
      /\ members (subject (fst after))
         = mk_Decomposition src (mk_BinaryExpression C x1 x2)
             (fst (native_comparison C x1 x2 (world s))))
  /\ (forall E (HE : Expression E) (HS : Streamable E) (e : E),
        snd (then_use (make_decomposition src e) os us s) = snd (evaluate e s)
        /\ members (subject (fst (then_use (make_decomposition src e) os us s)))
           = mk_Decomposition src e (fst (evaluate e s))).
Proof.
  cbv zeta. unfold then_use.
  rewrite !bind_ret_state, !bind_ret_value, !members_apply_uses. simpl.
  rewrite verify_unary_run, verify_binary_run. simpl.
  repeat split.
  - rewrite bind_ret_state, make_decomposition_run. reflexivity.
  - rewrite bind_ret_value, members_apply_uses, make_decomposition_run. reflexivity.
Qed.

(** C3 on operands that count their own comparisons: one comparison and
    one entry into [evaluate()], whatever is done with the result. *)
Example counted_comparison_runs_once :
  snd (then_use (verify_binary LT "foo() < bar()" (mk_counted 1) (mk_counted 2))
         stringstream [Query; Negate; Query; Negate; Negate; Print; Query; Print]
         (initially 0))
  = mk_State 1 1
  /\ answers (fst (then_use (verify_binary LT "foo() < bar()" (mk_counted 1) (mk_counted 2))
         stringstream [Query; Negate; Query; Negate; Negate; Print; Query; Print]
         (initially 0)))
     = [false; false; true].
Proof. split; reflexivity. Qed.

(** C4. Printing is exact.  A result over either node prints as
    ["verify(" + code + ") => verify(" + node text + ") => " + word], a
    negated one as ["!verify(" + code + ") => !verify(" + node text +
    ") => " + word], where the word is [true] or [false] (for the negated
    result, the word of the complement) and the node text is what the
    operand, or the two operands around the glyph of the tag, write into
    a fresh stream; [verify(a < b)] with [a = 23],
    [b = 42] prints [verify(a < b) => verify(23 < 42) => true] and its
    negation [!verify(a < b) => !verify(23 < 42) => false]. *)
Theorem printing_is_exact
  {T L R} `{Streamable T} `{Streamable L} `{Streamable R} (C : comparator)
  (du : Decomposition (UnaryExpression T))
  (db : Decomposition (BinaryExpression L C R))
  (nu : NegatedDecomposition (UnaryExpression T))
  (nb : NegatedDecomposition (BinaryExpression L C R)) :
  rendered du
    = "verify(" ++ code du ++ ") => verify(" ++ rendered (expression du) ++ ") => "
      ++ bool_text (value du)
  /\ rendered db
    = "verify(" ++ code db ++ ") => verify(" ++ rendered (expression db) ++ ") => "
      ++ bool_text (value db)
  /\ rendered nu
    = "!verify(" ++ code (base_object nu) ++ ") => !verify("
      ++ rendered (expression (base_object nu)) ++ ") => "
      ++ bool_text (negb (value (base_object nu)))
  /\ rendered nb
    = "!verify(" ++ code (base_object nb) ++ ") => !verify("
      ++ rendered (expression (base_object nb)) ++ ") => "
      ++ bool_text (negb (value (base_object nb)))
  /\ rendered (expression du) = str (stringstream << operand (expression du))
  /\ rendered (expression db)
     = str (stringstream << operand1 (expression db) << C << operand2 (expression db))
  /\ bool_text true = "true" /\ bool_text false = "false"
  /\ rendered (fst (verify_binary LT "a < b" 23%Z 42%Z (initially tt)))
     = "verify(a < b) => verify(23 < 42) => true"
  /\ rendered (Decomposition_operator_not
                 (fst (verify_binary LT "a < b" 23%Z 42%Z (initially tt))))
     = "!verify(a < b) => !verify(23 < 42) => false"
  /\ buffer (stringstream << fst (verify_binary LT "a < b" 23%Z 42%Z (initially tt)))
     = "verify(a < b) => verify(23 < 42) => true".
Proof.
  split; [apply rendered_Decomposition, UnaryExpression_inserts_finished_string|].
  split; [apply rendered_Decomposition, BinaryExpression_inserts_finished_string|].
  split; [apply rendered_NegatedDecomposition, UnaryExpression_inserts_finished_string|].
  split; [apply rendered_NegatedDecomposition, BinaryExpression_inserts_finished_string|].
  repeat split.
Qed.

(** C4, unary: a false operand [x]. *)
Example falsy_operand_prints :
  rendered (fst (verify_unary "x" 0%Z (initially tt))) = "verify(x) => verify(0) => false".
Proof. reflexivity. Qed.

(** C5. [!] on a plain result builds a negated result over the same
    [code], node and [value]: its conversion to [bool] is the complement
    of the stored value, its printed word is the word of the complement,
    and taking it leaves the state where [finish()] left it. *)
Theorem negation_complements
  {World T L R} `{Streamable T} `{Streamable L} `{Streamable R} (C : comparator)
  (du : Decomposition (UnaryExpression T))
  (db : Decomposition (BinaryExpression L C R))
  (E : Type) (d : Decomposition E) (finish : M World (Decomposition E))
  (s : State World) :
  NegatedDecomposition_operator_bool (Decomposition_operator_not d)
    = negb (Decomposition_operator_bool d)
  /\ NegatedDecomposition_operator_bool (Decomposition_operator_not d) = negb (value d)
  /\ base_object (Decomposition_operator_not d) = d
  /\ rendered (Decomposition_operator_not du)
     = "!verify(" ++ code du ++ ") => !verify(" ++ rendered (expression du) ++ ") => "
       ++ bool_text (negb (value du))
  /\ rendered (Decomposition_operator_not db)
     = "!verify(" ++ code db ++ ") => !verify(" ++ rendered (expression db) ++ ") => "
       ++ bool_text (negb (value db))
  /\ snd ((r <- finish ;; ret (Decomposition_operator_not r)) s) = snd (finish s)
  /\ fst ((r <- finish ;; ret (Decomposition_operator_not r)) s)
     = Decomposition_operator_not (fst (finish s)).
Proof.
  split; [reflexivity|]. split; [reflexivity|].
  split; [destruct d; reflexivity|].
  split; [apply rendered_NegatedDecomposition, UnaryExpression_inserts_finished_string|].
  split; [apply rendered_NegatedDecomposition, BinaryExpression_inserts_finished_string|].
  split; [apply bind_ret_state | apply bind_ret_value].
Qed.

(** C7. Decomposing a bare operand [x] gives the boolean
    [static_cast<bool>(x)], and the negation of the result converts to
    its complement; for a boolean literal [v] these are [v] and [!v]. *)
Theorem unary_decomposes_to_truthiness
  {World T} `{BoolConvertible World T} (src : string) (x : T) (v : bool)
  (s : State World) :
  Decomposition_operator_bool (fst (verify_unary src x s)) = fst (to_bool x (world s))
  /\ value (fst (verify_unary src x s)) = fst (to_bool x (world s))
  /\ expression (fst (verify_unary src x s)) = mk_UnaryExpression x
  /\ NegatedDecomposition_operator_bool
       (Decomposition_operator_not (fst (verify_unary src x s)))
     = negb (fst (to_bool x (world s)))
  /\ Decomposition_operator_bool (fst (verify_unary src v s)) = v
  /\ NegatedDecomposition_operator_bool
       (Decomposition_operator_not (fst (verify_unary src v s)))
     = negb v.
Proof. rewrite !verify_unary_run. repeat split. Qed.

(** C7 on [int]: [verify(a)] for [a = 1] and for [a = 0]. *)
Example int_truthiness :
  Decomposition_operator_bool (fst (verify_unary "a" 1%Z (initially tt))) = true
  /\ Decomposition_operator_bool (fst (verify_unary "a" 0%Z (initially tt))) = false.
Proof. split; reflexivity. Qed.

Lemma ends_with_refl (s : string) : ends_with s s = true.
Proof. destruct s; simpl; now rewrite ?Ascii.eqb_refl, ?String.eqb_refl. Qed.

(** A text that ends with a suffix ends with the tail of that suffix. *)
Lemma ends_with_tail (c : ascii) (suffix s : string) :
  ends_with (String c suffix) s = true -> ends_with suffix s = true.
Proof.
  induction s as [|x s IH]; [discriminate|].
  cbn [ends_with]. intros Hends.
  apply orb_true_iff in Hends. destruct Hends as [Heq|Hrest].
  - apply String.eqb_eq in Heq. injection Heq as _ ->.
    rewrite ends_with_refl. apply orb_true_r.
  - rewrite (IH Hrest). apply orb_true_r.
Qed.

Lemma ends_with_bool_text (pre : string) (b : bool) :
  ends_with "true" (pre ++ bool_text b) = b
  /\ ends_with "false" (pre ++ bool_text b) = negb b.
Proof.
  destruct b; simpl; split.
  - now rewrite ends_with_append by (simpl; lia).
  - destruct (ends_with "false" (pre ++ "true")) eqn:Hends; [|reflexivity].
    apply ends_with_tail in Hends.
    rewrite ends_with_append in Hends by (simpl; lia). discriminate.
  - now rewrite ends_with_append by (simpl; lia).
  - now rewrite ends_with_append by (simpl; lia).
Qed.

Lemma printed_word_of_Decomposition E `{Streamable E} (d : Decomposition E) :
  inserts_finished_string E ->
  ends_with "true" (rendered d) = Decomposition_operator_bool d
  /\ ends_with "false" (rendered d) = negb (Decomposition_operator_bool d).
Proof.
  intros HE. rewrite rendered_Decomposition by assumption.
  rewrite <- !append_assoc. apply ends_with_bool_text.
Qed.

Lemma printed_word_of_NegatedDecomposition E `{Streamable E} (n : NegatedDecomposition E) :
  inserts_finished_string E ->
  ends_with "true" (rendered n) = NegatedDecomposition_operator_bool n
  /\ ends_with "false" (rendered n) = negb (NegatedDecomposition_operator_bool n).
Proof.
  intros HE. rewrite rendered_NegatedDecomposition by assumption.
  rewrite <- !append_assoc. apply ends_with_bool_text.
Qed.

(** C9. The printed word agrees with the conversion to [bool]: for a
    plain and for a negated result, over either node, the text ends in
    [true] exactly when the result converts to [true], and in [false]
    exactly when it converts to [false]. *)
Theorem printed_word_agrees_with_conversion
  {T L R} `{Streamable T} `{Streamable L} `{Streamable R} (C : comparator)
  (du : Decomposition (UnaryExpression T))
  (db : Decomposition (BinaryExpression L C R))
  (nu : NegatedDecomposition (UnaryExpression T))
  (nb : NegatedDecomposition (BinaryExpression L C R)) :
  (ends_with "true" (rendered du) = Decomposition_operator_bool du
   /\ ends_with "false" (rendered du) = negb (Decomposition_operator_bool du))
  /\ (ends_with "true" (rendered db) = Decomposition_operator_bool db
      /\ ends_with "false" (rendered db) = negb (Decomposition_operator_bool db))
  /\ (ends_with "true" (rendered nu) = NegatedDecomposition_operator_bool nu
      /\ ends_with "false" (rendered nu) = negb (NegatedDecomposition_operator_bool nu))
  /\ (ends_with "true" (rendered nb) = NegatedDecomposition_operator_bool nb
      /\ ends_with "false" (rendered nb) = negb (NegatedDecomposition_operator_bool nb)).
Proof.
  split; [apply printed_word_of_Decomposition,
            UnaryExpression_inserts_finished_string|].
  split; [apply printed_word_of_Decomposition,
            BinaryExpression_inserts_finished_string|].
  split; [apply printed_word_of_NegatedDecomposition,
            UnaryExpression_inserts_finished_string|].
  apply printed_word_of_NegatedDecomposition, BinaryExpression_inserts_finished_string.
Qed.

Lemma finished_string_uses_only_the_width T `{Streamable T} :
  inserts_finished_string T -> uses_only_the_width T.
Proof.
  intros HT os x. rewrite !HT. unfold insert_string.
  destruct (good os) eqn:G; simpl; rewrite ?G; simpl.
  - repeat split; try reflexivity.
    + intros os'. exact (HT os' x).
    + f_equal. now apply pad_no_width.
  - repeat split; try reflexivity.
    + now rewrite append_empty_r.
    + intros os'. exact (HT os' x).
    + now rewrite append_empty_r.
Qed.



(** C10 on other destinations: a [left] stream is padded after the
    text, a stream that is not good is left alone, and an [int] inserted
    directly is written in the base of the destination. *)
Example print_on_other_streams :
  let r := fst (verify_binary LT "a < b" 255%Z 42%Z (initially tt)) in
  buffer (mk_ostream (mk_fmtflags false hex adjust_left) 6 44 "*"%char true "" << r)
  = "verify(a < b) => verify(255 < 42) => false**"
  /\ mk_ostream (mk_fmtflags false hex unadjusted) 6 44 "*"%char false "" << r
     = mk_ostream (mk_fmtflags false hex unadjusted) 6 44 "*"%char false ""
  /\ buffer (mk_ostream (mk_fmtflags false hex unadjusted) 6 4 "*"%char true "" << 255%Z)
     = "**ff"
  /\ buffer (mk_ostream (mk_fmtflags false dec adjust_internal) 6 6 "0"%char true ""
             << (-42)%Z)
     = "-00042".
Proof. repeat split. Qed.

(** C6, as the header has it.  The capture operator [<<] has higher
    precedence than the six comparison operators and than assignment,
    and lower precedence than the arithmetic operators.  So with [x]
    written as operands joined by arithmetic, [decompose(#x) << x]
    captures the whole of [x] in a [FirstOperand] holding the source
    text and the operand; with a comparison [o] following, the capture
    takes only what is written before [o], and [o] is applied to the
    [FirstOperand], giving a [SecondOperand] with the source text, the
    first operand, the tag of [o] and the second operand; and [finish()]
    on either builds the unary or binary node, enters [evaluate()] once,
    and returns the result holding source text, node and boolean. *)
Theorem capture_protocol
  {World value} `{BoolConvertible World value} `{Comparable World value value}
  (builtin : binop -> value -> value -> value)
  (src : string) (h : value) (xs : list (binop * value))
  (o : binop) (C : comparator) (y : value) (ys : list (binop * value))
  (s : State World) :
  Forall (fun p => higher_precedence (fst p) Shl = true) xs ->
  FirstOperand_declares o = Some C ->
  Forall (fun p => higher_precedence (fst p) o = true) ys ->
  let start := Leaf (Decompose (mk_decompose src)) in
  let op1 := builtin_value builtin (parse h xs) in
  let op2 := builtin_value builtin (parse y ys) in
  (forall c, is_comparison c = true -> higher_precedence Shl c = true)
  /\ (forall a, is_arithmetic a = true -> lower_precedence Shl a = true)
  /\ higher_precedence Shl Assign = true
  /\ expansion (mk_written src h xs) = Node Shl start (tree_map Operand (parse h xs))
  /\ elaborate builtin (expansion (mk_written src h xs))
     = Some (First (mk_FirstOperand src op1))
  /\ expansion (mk_written src h (xs ++ (o, y) :: ys))
     = Node o (Node Shl start (tree_map Operand (parse h xs)))
              (tree_map Operand (parse y ys))
  /\ elaborate builtin (expansion (mk_written src h (xs ++ (o, y) :: ys)))
     = Some (Second C (mk_SecondOperand C src op1 op2))
  /\ (exists run,
        verify builtin (mk_written src h xs) = Some run
        /\ run s = (UnaryOutcome
                      (mk_Decomposition src (mk_UnaryExpression op1)
                         (fst (to_bool op1 (world s)))),
                    mk_State (snd (to_bool op1 (world s))) (S (evaluate_calls s))))
  /\ (exists run,
        verify builtin (mk_written src h (xs ++ (o, y) :: ys)) = Some run
        /\ run s = (BinaryOutcome C
                      (mk_Decomposition src (mk_BinaryExpression C op1 op2)
                         (fst (native_comparison C op1 op2 (world s)))),
                    mk_State (snd (native_comparison C op1 op2 (world s)))
                             (S (evaluate_calls s)))).
Proof.
  intros Hxs HC Hys. cbv zeta.
  pose proof (comparison_not_in_right_operand o C HC) as Ho.
  split; [intros c; destruct c; (discriminate || reflexivity)|].
  split; [intros a; destruct a; (discriminate || reflexivity)|].
  split; [reflexivity|].
  split; [now apply expansion_whole|].
  split; [rewrite expansion_whole by assumption; simpl;
          now rewrite elaborate_operands|].
  split; [now apply expansion_split|].
  split; [rewrite expansion_split by assumption; simpl;
          rewrite !elaborate_operands; simpl; rewrite HC;
          destruct C; reflexivity|].
  split.
  - eexists. split; [now apply verify_whole|].
    unfold bind, ret. now rewrite verify_unary_run.
  - eexists. split; [exact (verify_comparison builtin src h xs o C y ys Hxs HC Hys)|].
    unfold bind, ret. now rewrite verify_binary_run.
Qed.

(** C6 at [verify(a + 1 < b * 2)] with [a = 23], [b = 42]. *)
Lemma capture_protocol_witness :
  exists run,
    verify (World := unit) builtin_int
      (mk_written "a + 1 < b * 2" 23%Z [(Add, 1%Z); (Lt, 42%Z); (Mul, 2%Z)]) = Some run
    /\ run (initially tt)
       = (BinaryOutcome LT
            (mk_Decomposition "a + 1 < b * 2" (mk_BinaryExpression LT 24%Z 84%Z) true),
          mk_State tt 1).
Proof.
  refine (proj2 (proj2 (proj2 (proj2 (proj2 (proj2 (proj2 (proj2
    (capture_protocol (World := unit) builtin_int "a + 1 < b * 2" 23%Z [(Add, 1%Z)]
       Lt LT 42%Z [(Mul, 2%Z)] (initially tt) _ _ _))))))))).
  - repeat constructor.
  - reflexivity.
  - repeat constructor.
Defined.

(** C6 as stated fails: the claim puts the capture operator below the
    comparison operators, and [<] is a comparison operator that [<<] is
    not below.  [decompose("a < b") << a < b] therefore applies [<] to
    the capture of [a], which is what lets the header print [23 < 42].
    (Reading "lower" as an earlier row of the table does not rescue the
    claim: [<<] is in no earlier row than [+], and in no later row than
    [=].) *)
Lemma capture_operator_not_below_comparisons :
  is_comparison Lt = true
  /\ lower_precedence Shl Lt = false
  /\ higher_precedence Shl Lt = true
  /\ expansion (mk_written "a < b" 23%Z [(Lt, 42%Z)])
     = Node Lt (Node Shl (Leaf (Decompose (mk_decompose "a < b"))) (Leaf (Operand 23%Z)))
               (Leaf (Operand 42%Z))
  /\ Nat.ltb (level Shl) (level Add) = false
  /\ Nat.ltb (level Assign) (level Shl) = false.
Proof. repeat split. Qed.

(** C8. An expression whose first operator at the capture boundary is a
    shift, [&&] or [||] does not compile: [FirstOperand] declares the six
    comparison operators and nothing else, so no operator matches, there
    is no program, and nothing is evaluated. *)
Theorem unsupported_operators_are_rejected
  {World value} `{BoolConvertible World value} `{Comparable World value value}
  (builtin : binop -> value -> value -> value)
  (src : string) (h : value) (xs : list (binop * value))
  (o : binop) (y : value) (ys : list (binop * value)) :
  Forall (fun p => higher_precedence (fst p) Shl = true) xs ->
  In o [Shl; Shr; LogAnd; LogOr] ->
  verify builtin (mk_written src h (xs ++ (o, y) :: ys)) = None
  /\ elaborate builtin (expansion (mk_written src h (xs ++ (o, y) :: ys))) = None
  /\ (forall (f : FirstOperand value) (c : captured value),
        apply_operator builtin o (First f) c = None)
  /\ (forall o' : binop,
        (exists C, FirstOperand_declares o' = Some C)
        <-> In o' [Eq; Ne; Le; Ge; Lt; Gt]).
Proof.
  intros Hxs Ho.
  assert (takes_right_operand Shl o = false /\ FirstOperand_declares o = None)
    as [Hgroup Hnone]
    by (simpl in Ho; intuition (subst; split; reflexivity)).
  pose proof (verify_rejected builtin src h xs o y ys Hxs Hgroup Hnone) as Hrej.
  split; [exact Hrej|].
  split.
  - unfold verify in Hrej.
    destruct (elaborate builtin (expansion (mk_written src h (xs ++ (o, y) :: ys))))
      as [c|] eqn:Hc; [|reflexivity].
    pose proof (expansion_split value src h xs o y [] Hxs Hgroup (Forall_nil _)) as Hsplit.
    exfalso. revert Hc.
    unfold expansion, parse in *. simpl in *.
    rewrite map_app, fold_left_app in *. simpl in *.
    rewrite fold_extend_stays_rejected; [discriminate| |].
    + rewrite Hsplit. apply (shape_step _ o (Leaf y)). constructor. constructor.
    + rewrite Hsplit. simpl. rewrite elaborate_operands. simpl. now rewrite Hnone.
  - split.
    + intros f c. destruct c; simpl; try reflexivity. now rewrite Hnone.
    + intros o'. split.
      * intros [C HC]. destruct o'; try discriminate; simpl; tauto.
      * intros Hin. simpl in Hin.
        destruct Hin as [<-|[<-|[<-|[<-|[<-|[<-|[]]]]]]]; eexists; reflexivity.
Qed.

(** C8 at [verify(a << b)]. *)
Lemma unsupported_operators_witness :
  verify (World := unit) builtin_int (mk_written "a << b" 1%Z [(Shl, 2%Z)]) = None.
Proof.
  refine (proj1 (unsupported_operators_are_rejected (World := unit) builtin_int
                   "a << b" 1%Z [] Shl 2%Z [] _ _)).
  - constructor.
  - simpl. auto.
Defined.

(** The four expressions of [tests/verify.xfail.cpp], and the one that
    must pass. *)
Example xfail_cases :
  verify (World := unit) builtin_int (mk_written "a << b" 1%Z [(Shl, 2%Z)]) = None
  /\ verify (World := unit) builtin_int (mk_written "a >> b" 1%Z [(Shr, 2%Z)]) = None
  /\ verify (World := unit) builtin_int (mk_written "a && b" 1%Z [(LogAnd, 0%Z)]) = None
  /\ verify (World := unit) builtin_int (mk_written "a || b" 1%Z [(LogOr, 0%Z)]) = None
  /\ option_map (fun run => fst (run (initially tt)))
       (verify (World := unit) builtin_int (mk_written "a < b" 1%Z [(Lt, 2%Z)]))
     = Some (BinaryOutcome LT
               (mk_Decomposition "a < b" (mk_BinaryExpression LT 1%Z 2%Z) true)).
Proof. repeat split. Qed.

(* ================================================================== *)
(** ** Further properties of the header *)

Lemma bind_run World A B (c : M World A) (k : A -> M World B) (s : State World) :
  (x <- c ;; k x) s = k (fst (c s)) (snd (c s)).
Proof. unfold bind. now destruct (c s). Qed.

Lemma comparator_inserts_finished_string : inserts_finished_string comparator.
Proof. intros os c. destruct c; reflexivity. Qed.

Lemma string_inserts_finished_string : inserts_finished_string string.
Proof. intros os x. reflexivity. Qed.

(** X1. The glyph printed for a captured comparison is the operator the
    caller wrote, with one space on either side, on any destination; and
    the six glyphs are pairwise different, so the text tells which
    comparison was made. *)
Theorem glyph_is_written_operator (o : binop) (C : comparator) :
  FirstOperand_declares o = Some C ->
  rendered C = " " ++ token o ++ " "
  /\ (forall os : ostream, os << C = insert_string os (" " ++ token o ++ " "))
  /\ (forall C' : comparator, rendered C' = rendered C -> C' = C).
Proof.
  intros HC.
  destruct o; try discriminate; injection HC as <-;
    (split; [reflexivity|]; split; [reflexivity|]);
    intros C' Heq; destruct C'; (reflexivity || discriminate).
Qed.

(** X1 at [<]. *)
Lemma glyph_is_written_operator_witness : rendered LT = " < ".
Proof. exact (proj1 (glyph_is_written_operator Lt LT eq_refl)). Defined.

Lemma rendered_int_node (C : comparator) (a b : Z) :
  rendered (mk_BinaryExpression C a b) = show_int dec a ++ rendered C ++ show_int dec b.
Proof.
  unfold rendered at 1.
  change (stringstream << mk_BinaryExpression C a b)
    with (insert_string stringstream
            (str (insert_int stringstream a << C << b))).
  rewrite rendered_insert_string.
  change (insert_int stringstream a) with (insert_string stringstream (show_int dec a)).
  rewrite comparator_inserts_finished_string.
  change (insert_string (insert_string stringstream (show_int dec a)) (rendered C) << b)
    with (insert_string (insert_string (insert_string stringstream (show_int dec a))
                           (rendered C)) (show_int dec b)).
  generalize (show_int dec a) (show_int dec b) (rendered C). intros ta tb tc.
  cbn. now rewrite append_assoc.
Qed.

(** X2. Operands are written with the defaults of a fresh stream, not
    with the formatting of the destination nor with the [boolalpha] of
    the result's own stream: an [int] operand appears in decimal and a
    [bool] operand as [1] or [0], while the result word is [true] or
    [false]; a destination set to hexadecimal receives the same text. *)
Theorem operands_print_with_fresh_defaults
  (C : comparator) (src : string) (a b : Z) (u v : bool) (os : ostream) :
  rendered (mk_Decomposition src (mk_BinaryExpression C a b) v)
  = "verify(" ++ src ++ ") => verify(" ++ show_int dec a ++ rendered C ++ show_int dec b
    ++ ") => " ++ bool_text v
  /\ rendered (mk_Decomposition src (mk_UnaryExpression a) v)
     = "verify(" ++ src ++ ") => verify(" ++ show_int dec a ++ ") => " ++ bool_text v
  /\ rendered (mk_Decomposition src (mk_UnaryExpression u) v)
     = "verify(" ++ src ++ ") => verify(" ++ (if u then "1" else "0") ++ ") => "
       ++ bool_text v
  /\ os << mk_Decomposition src (mk_BinaryExpression C a b) v
     = insert_string os
         ("verify(" ++ src ++ ") => verify(" ++ show_int dec a ++ rendered C
          ++ show_int dec b ++ ") => " ++ bool_text v).
Proof.
  assert (rendered (mk_Decomposition src (mk_BinaryExpression C a b) v)
          = "verify(" ++ src ++ ") => verify(" ++ show_int dec a ++ rendered C
            ++ show_int dec b ++ ") => " ++ bool_text v) as Hbin.
  { rewrite rendered_Decomposition
      by apply BinaryExpression_inserts_finished_string.
    cbn [code expression value]. rewrite rendered_int_node.
    now rewrite !append_assoc. }
  split; [exact Hbin|].
  split.
  { rewrite rendered_Decomposition by apply UnaryExpression_inserts_finished_string.
    reflexivity. }
  split.
  { rewrite rendered_Decomposition by apply UnaryExpression_inserts_finished_string.
    destruct u; reflexivity. }
  rewrite Decomposition_inserts_finished_string. now rewrite Hbin.
Qed.

(** X3. When the operands' printers insert finished strings, the text
    of a binary node is the text of the first operand, the glyph of the
    tag, and the text of the second operand, in that order; the text of
    a unary node is always the text of its operand. *)
Theorem node_text_concatenates
  {L R T} `{Streamable L} `{Streamable R} `{Streamable T}
  (C : comparator) (x : L) (y : R) (z : T) :
  inserts_finished_string L ->
  inserts_finished_string R ->
  rendered (mk_BinaryExpression C x y) = rendered x ++ rendered C ++ rendered y
  /\ rendered (mk_UnaryExpression z) = rendered z.
Proof.
  intros HL HR. split; [|reflexivity].
  unfold rendered at 1.
  change (stringstream << mk_BinaryExpression C x y)
    with (insert_string stringstream (str (stringstream << x << C << y))).
  rewrite rendered_insert_string, HL, comparator_inserts_finished_string, HR.
  generalize (rendered x) (rendered y) (rendered C). intros tx ty tc.
  cbn. now rewrite append_assoc.
Qed.

(** X3 on two strings. *)
Lemma node_text_concatenates_witness :
  rendered (mk_BinaryExpression NE "bob" "alice") = "bob != alice".
Proof.
  exact (proj1 (node_text_concatenates NE "bob" "alice" "x"
                  string_inserts_finished_string string_inserts_finished_string)).
Defined.

Lemma finished_string_pads_as_one_field T `{Streamable T} :
  inserts_finished_string T -> pads_as_one_field T.
Proof.
  intros HT os x. rewrite HT. unfold insert_string, pad.
  split; intros G; rewrite G; [split|]; reflexivity.
Qed.

(** X4. A pending field width of a good destination pads the whole
    printed text as one field and is then reset: the missing fill
    characters follow the text on a [left] destination and precede it
    otherwise.  A destination that is not good receives nothing and
    keeps its width.  This holds for both nodes and both results,
    whatever the operands' printers do. *)
Theorem width_pads_whole_text
  {T L R E} `{Streamable T} `{Streamable L} `{Streamable R} `{Streamable E}
  (C : comparator) :
  pads_as_one_field (UnaryExpression T)
  /\ pads_as_one_field (BinaryExpression L C R)
  /\ pads_as_one_field (Decomposition E)
  /\ pads_as_one_field (NegatedDecomposition E).
Proof.
  split; [apply finished_string_pads_as_one_field,
            UnaryExpression_inserts_finished_string|].
  split; [apply finished_string_pads_as_one_field,
            BinaryExpression_inserts_finished_string|].
  split; [apply finished_string_pads_as_one_field,
            Decomposition_inserts_finished_string|].
  apply finished_string_pads_as_one_field, NegatedDecomposition_inserts_finished_string.
Qed.

(** X4 on a [left] destination with a pending width of 44 and fill [*]:
    the 42 characters of the text, then two fill characters. *)
Lemma width_pads_whole_text_witness :
  buffer (mk_ostream (mk_fmtflags false dec adjust_left) 6 44 "*"%char true ""
          << mk_Decomposition "a < b" (mk_BinaryExpression LT 255%Z 42%Z) false)
  = "verify(a < b) => verify(255 < 42) => false**"
  /\ width (mk_ostream (mk_fmtflags false dec adjust_left) 6 44 "*"%char true ""
            << mk_Decomposition "a < b" (mk_BinaryExpression LT 255%Z 42%Z) false)
     = 0.
Proof.
  exact (proj1 (proj1 (proj2 (proj2
           (width_pads_whole_text (T := Z) (L := Z) (R := Z)
              (E := BinaryExpression Z LT Z) LT)))
           (mk_ostream (mk_fmtflags false dec adjust_left) 6 44 "*"%char true "")
           (mk_Decomposition "a < b" (mk_BinaryExpression LT 255%Z 42%Z) false))
         eq_refl).
Defined.

Lemma texts_are_marked E `{Streamable E}
  (d : Decomposition E) (n : NegatedDecomposition E) :
  inserts_finished_string E ->
  String.prefix "verify(" (rendered d) = true
  /\ String.prefix "!verify(" (rendered n) = true
  /\ rendered d <> rendered n.
Proof.
  intros HE.
  rewrite rendered_Decomposition, rendered_NegatedDecomposition by assumption.
  cbn [append]. repeat split.
  - cbn. now destruct (code d ++ _).
  - cbn. now destruct (code (base_object n) ++ _).
  - discriminate.
Qed.

(** X5. The text of a plain result starts with [verify(] and the text
    of a negated result with [!verify(]; so no plain result prints like
    any negated one. *)
Theorem negated_text_is_marked
  {T L R} `{Streamable T} `{Streamable L} `{Streamable R} (C : comparator)
  (du : Decomposition (UnaryExpression T))
  (db : Decomposition (BinaryExpression L C R))
  (nu : NegatedDecomposition (UnaryExpression T))
  (nb : NegatedDecomposition (BinaryExpression L C R)) :
  (String.prefix "verify(" (rendered du) = true
   /\ String.prefix "!verify(" (rendered nu) = true
   /\ rendered du <> rendered nu)
  /\ (String.prefix "verify(" (rendered db) = true
      /\ String.prefix "!verify(" (rendered nb) = true
      /\ rendered db <> rendered nb).
Proof.
  split.
  - apply texts_are_marked, UnaryExpression_inserts_finished_string.
  - apply texts_are_marked, BinaryExpression_inserts_finished_string.
Qed.

Lemma iterated_negation E (d : Decomposition E) (k : nat) :
  Nat.iter k negate (Plain d)
  = if Nat.even k then Plain d else Negated (Decomposition_operator_not d).
Proof.
  induction k as [|k IH]; [reflexivity|].
  rewrite Nat.even_succ, <- Nat.negb_even. cbn [Nat.iter nat_rect]. 
  change (nat_rect _ (Plain d) (fun _ => negate) k) with (Nat.iter k negate (Plain d)).
  rewrite IH. destruct (Nat.even k); simpl; [reflexivity|].
  now rewrite double_negation.
Qed.

(** X6. Negating a result [k] times gives the plain result back when
    [k] is even and its negation when [k] is odd: the boolean observed is
    the stored value for even [k] and its complement for odd [k], and the
    stored members never change. *)
Theorem negation_parity {E} (d : Decomposition E) (k : nat) :
  Nat.iter k negate (Plain d)
  = (if Nat.even k then Plain d else Negated (Decomposition_operator_not d))
  /\ observed (Nat.iter k negate (Plain d)) = xorb (value d) (Nat.odd k)
  /\ members (Nat.iter k negate (Plain d)) = d.
Proof.
  rewrite iterated_negation, <- Nat.negb_even.
  destruct (Nat.even k), d as [c e v]; simpl; repeat split;
    unfold Decomposition_operator_bool, NegatedDecomposition_operator_bool; simpl;
    now rewrite ?xorb_false_r, ?xorb_true_r.
Qed.

(* ================================================================== *)
(** ** Further properties of the macro *)

Lemma attach_root A (P : binop -> Prop) (t : tree A) (o : binop) (a : A) :
  P o -> root_satisfies P t -> root_satisfies P (attach t o a).
Proof.
  intros Po Ht. destruct t as [x|o' l r]; simpl; [exact Po|].
  now destruct (takes_right_operand o' o).
Qed.

Lemma parse_root A (P : binop -> Prop) (rest : list (binop * A)) :
  Forall (fun p => P (fst p)) rest ->
  forall t : tree A, root_satisfies P t -> root_satisfies P (fold_left extend rest t).
Proof.
  induction 1 as [|[o a] rest Po _ IH]; intros t Ht; simpl; [exact Ht|].
  apply IH. now apply attach_root.
Qed.

(** Read on its own, [x] has the grouping the expansion gives it. *)
Lemma parse_split A (h : A) (xs : list (binop * A)) (o : binop) (C : comparator)
  (y : A) (ys : list (binop * A)) :
  Forall (fun p => higher_precedence (fst p) Shl = true) xs ->
  FirstOperand_declares o = Some C ->
  Forall (fun p => higher_precedence (fst p) o = true) ys ->
  parse h (xs ++ (o, y) :: ys) = Node o (parse h xs) (parse y ys).
Proof.
  intros Hxs HC Hys. unfold parse. rewrite fold_left_app. simpl.
  pose proof (parse_root A (fun o' => higher_precedence o' Shl = true) xs Hxs
                (Leaf h) I) as Hroot.
  destruct (fold_left extend xs (Leaf h)) as [x|o' l r] eqn:Ht.
  - unfold extend at 2. simpl.
    now rewrite (fold_extend_under A o (Leaf x) ys (Forall_higher_takes_right A o ys Hys)).
  - unfold extend at 2. simpl in *.
    assert (takes_right_operand o' o = false) as ->
      by (destruct o; try discriminate; destruct o'; (discriminate || reflexivity)).
    now rewrite (fold_extend_under A o (Node o' l r) ys
                   (Forall_higher_takes_right A o ys Hys)).
Qed.

Lemma int_comparisons_cohere World (o : binop) (C : comparator) (a b : Z) (w : World) :
  FirstOperand_declares o = Some C ->
  fst (native_comparison C a b w) = fst (to_bool (builtin_int o a b) w).
Proof.
  intros HC. destruct o; try discriminate; injection HC as <-; simpl;
    unfold to_bool, BoolConvertible_int; simpl;
    match goal with |- context [Z.b2z ?c] => destruct c end; reflexivity.
Qed.

Section MacroProperties.
Context {World value : Type}.
Context `{BoolConvertible World value} `{Comparable World value value}.
Variable builtin : binop -> value -> value -> value.


(** X8. An accepted expression keeps its meaning.  If the operand
    type's built-in comparisons are the ones the tags call, then whenever
    [verify(x)] compiles, the boolean of its result is the truth value of
    [x] read on its own, and the stored source text is the spelling of
    [x]. *)
Theorem accepted_expression_keeps_its_meaning
  (x : written value) (run : M World (outcome value)) (s : State World) :
  (forall o C a b w,
      FirstOperand_declares o = Some C ->
      fst (native_comparison C a b w) = fst (to_bool (builtin o a b) w)) ->
  verify builtin x = Some run ->
  outcome_bool (fst (run s))
  = fst (to_bool (builtin_value builtin (parse (head x) (tail x))) (world s))
  /\ outcome_code (fst (run s)) = spelling x.
Proof.
  intros Hcohere Hrun.
  destruct (verify_accepts_two_shapes builtin x run Hrun)
    as [Hall|(xs & o & C & y & ys & Htail & Hxs & HC & Hys)];
    destruct x as [src h t]; simpl in *.
  - rewrite verify_whole in Hrun by assumption. injection Hrun as <-.
    rewrite bind_run, verify_unary_run. split; reflexivity.
  - subst t.
    rewrite (verify_comparison builtin src h xs o C y ys Hxs HC Hys) in Hrun.
    injection Hrun as <-.
    rewrite bind_run, verify_binary_run.
    rewrite (parse_split value h xs o C y ys Hxs HC Hys).
    split; [|reflexivity].
    simpl. unfold Decomposition_operator_bool. simpl. now apply Hcohere.
Qed.

(** X9. Nothing may follow a captured comparison except what groups
    into its right-hand side: a second comparison of the same or lower
    precedence ([a < b < c], [a < b == c]), a bitwise or logical operator
    or an assignment finds no operator on the [SecondOperand], and the
    expansion does not compile. *)
Theorem nothing_follows_a_captured_comparison
  (src : string) (h : value) (xs : list (binop * value))
  (o : binop) (C : comparator) (y : value) (ys : list (binop * value))
  (o2 : binop) (y2 : value) (zs : list (binop * value)) :
  Forall (fun p => higher_precedence (fst p) Shl = true) xs ->
  FirstOperand_declares o = Some C ->
  Forall (fun p => higher_precedence (fst p) o = true) ys ->
  higher_precedence o2 o = false ->
  verify builtin (mk_written src h (xs ++ (o, y) :: ys ++ (o2, y2) :: zs)) = None
  /\ forall (second : SecondOperand value C value) (c : captured value),
       apply_operator builtin o2 (Second C second) c = None.
Proof.
  intros Hxs HC Hys Ho2. split.
  - now apply (verify_rejected_after_comparison builtin src h xs o C y ys o2 y2 zs).
  - intros second c. reflexivity.
Qed.

(** X10. The first operator of [x] that does not group before [<<] has
    to be one of the six comparisons: with a shift, a bitwise operator,
    [&&], [||] or [=] in that place the expansion does not compile,
    whatever is written after it. *)
Theorem only_a_comparison_may_follow_the_capture
  (src : string) (h : value) (xs : list (binop * value))
  (o : binop) (y : value) (ys : list (binop * value)) :
  Forall (fun p => higher_precedence (fst p) Shl = true) xs ->
  higher_precedence o Shl = false ->
  is_comparison o = false ->
  verify builtin (mk_written src h (xs ++ (o, y) :: ys)) = None
  /\ In o [Shl; Shr; BitAnd; BitXor; BitOr; LogAnd; LogOr; Assign].
Proof.
  intros Hxs Ho Hcmp. split.
  - apply verify_rejected; [assumption | now apply not_higher_than_capture |].
    destruct o; (discriminate || reflexivity).
  - destruct o; try discriminate; simpl; tauto.
Qed.

End MacroProperties.

(** X8 at [verify(a + 1 < b * 2)] with [a = 23], [b = 42]: the result is
    true, as [23 + 1 < 42 * 2] is. *)
Lemma accepted_expression_keeps_its_meaning_witness :
  exists run,
    verify (World := unit) builtin_int
      (mk_written "a + 1 < b * 2" 23%Z [(Add, 1%Z); (Lt, 42%Z); (Mul, 2%Z)]) = Some run
    /\ outcome_bool (fst (run (initially tt))) = true
    /\ outcome_code (fst (run (initially tt))) = "a + 1 < b * 2".
Proof.
  eexists. split; [reflexivity|].
  exact (accepted_expression_keeps_its_meaning (World := unit) builtin_int
           (mk_written "a + 1 < b * 2" 23%Z [(Add, 1%Z); (Lt, 42%Z); (Mul, 2%Z)])
           _ (initially tt) (int_comparisons_cohere unit) eq_refl).
Defined.

(** X9 at [verify(a < b < c)]. *)
Lemma nothing_follows_a_captured_comparison_witness :
  verify (World := unit) builtin_int
    (mk_written "a < b < c" 1%Z [(Lt, 2%Z); (Lt, 3%Z)]) = None.
Proof.
  refine (proj1 (nothing_follows_a_captured_comparison (World := unit) builtin_int
                   "a < b < c" 1%Z [] Lt LT 2%Z [] Lt 3%Z [] _ _ _ _));
    (constructor || reflexivity).
Defined.

(** X10 at [verify(a & b)]. *)
Lemma only_a_comparison_may_follow_the_capture_witness :
  verify (World := unit) builtin_int (mk_written "a & b" 6%Z [(BitAnd, 3%Z)]) = None.
Proof.
  refine (proj1 (only_a_comparison_may_follow_the_capture (World := unit) builtin_int
                   "a & b" 6%Z [] BitAnd 3%Z [] _ _ _));
    (constructor || reflexivity).
Defined.


(* ================================================================== *)
(** ** Properties of the tests *)

Lemma drop_append (a b : string) : drop (String.length a) (a ++ b) = b.
Proof. induction a as [|c a IH]; simpl; [now destruct b | exact IH]. Qed.

Lemma drop_splits (n : nat) (s : string) :
  n <= String.length s ->
  exists pre, s = pre ++ drop n s /\ String.length pre = n.
Proof.
  revert s. induction n as [|n IH]; intros s Hn.
  - exists "". split; [now destruct s | reflexivity].
  - destruct s as [|c s]; simpl in Hn; [lia|].
    destruct (IH s) as (pre & Hs & Hlen); [lia|].
    exists (String c pre). simpl. split; [now rewrite <- Hs | now rewrite Hlen].
Qed.

Lemma int_quotient_is_int (x y : Z) :
  is_int x -> is_int y -> y <> 0%Z -> ~ (x = INT_MIN /\ y = (-1)%Z) ->
  is_int (Z.quot x y).
Proof.
  unfold is_int, INT_MIN, INT_MAX. intros Hx Hy Hy0 Hedge.
  destruct (Z.eq_dec y 1) as [->|Hy1]; [rewrite Z.quot_1_r; lia|].
  destruct (Z.eq_dec y (-1)) as [->|Hy2].
  - change (Z.quot x (-1)) with (Z.quot x (Z.opp 1)).
    rewrite Z.quot_opp_r, Z.quot_1_r by lia. lia.
  - assert (Z.abs (Z.quot x y) <= 2 ^ 30)%Z; [|lia].
    rewrite <- Z.quot_abs by assumption.
    apply Z.quot_le_upper_bound; lia.
Qed.



Lemma verify_foo_lt_bar_run (order : operand_order) (a b : Z) (s : State counters) :
  verify_foo_lt_bar order a b s
  = (mk_Decomposition "foo() < bar()" (mk_BinaryExpression LT a b) (a <? b)%Z,
     mk_State (mk_counters (S (foo_calls (world s))) (S (bar_calls (world s))))
              (S (evaluate_calls s))).
Proof.
  destruct order; unfold verify_foo_lt_bar; rewrite !bind_run;
    rewrite verify_binary_run; reflexivity.
Qed.

(** X12. In [verify(foo() < bar())] each operand function is called
    exactly once, whichever operand is evaluated first, and no negation
    or boolean query of the result calls one again.  The test of function
    calls therefore ends with both counters at 2 and two entries into
    [evaluate()], and all its checks pass exactly when [a < b]. *)
Theorem function_call_test_counts
  (first second : operand_order) (a b : Z) (s : State counters) :
  verify_foo_lt_bar first a b s = verify_foo_lt_bar second a b s
  /\ snd (verify_foo_lt_bar first a b s)
     = mk_State (mk_counters (S (foo_calls (world s))) (S (bar_calls (world s))))
                (S (evaluate_calls s))
  /\ snd (test_function_calls first second a b s)
     = mk_State (mk_counters 2 2) (S (S (evaluate_calls s)))
  /\ (Forall (fun c => c = true) (fst (test_function_calls first second a b s))
      <-> (a < b)%Z).
Proof.
  split; [now rewrite !verify_foo_lt_bar_run|].
  split; [now rewrite verify_foo_lt_bar_run|].
  unfold test_function_calls, check_foo_calls, check_bar_calls.
  rewrite !bind_run, !verify_foo_lt_bar_run. simpl.
  split; [reflexivity|].
  unfold Decomposition_operator_bool, NegatedDecomposition_operator_bool. simpl.
  destruct (Z.ltb_spec a b) as [Hlt|Hge]; simpl; split; intros Hall.
  - exact Hlt.
  - repeat constructor.
  - inversion Hall; discriminate.
  - lia.
Qed.

Lemma all_true_cons (c : bool) (cs : list bool) :
  Forall (fun c => c = true) (c :: cs) <-> c = true /\ Forall (fun c => c = true) cs.
Proof. split; [intros Hall; inversion Hall; auto | intros [? ?]; now constructor]. Qed.

(** X13. The cast-to-bool test passes exactly for a non-zero [a]:
    [verify(a)], [verify(!!a)], [verify((bool)(a))] and
    [verify(static_cast<bool>(a))] are true and [verify(!a)] is false
    exactly then, and each negated result gives the opposite; the ten
    decompositions enter [evaluate()] ten times and leave the world as it
    was. *)
Theorem cast_to_bool_test_passes_iff_nonzero {World} (a : Z) (s : State World) :
  (Forall (fun c => c = true) (fst (test_cast_to_bool a s)) <-> a <> 0%Z)
  /\ snd (test_cast_to_bool a s) = mk_State (world s) (10 + evaluate_calls s).
Proof.
  unfold test_cast_to_bool.
  rewrite !bind_run, !verify_unary_run. simpl.
  unfold Decomposition_operator_bool, NegatedDecomposition_operator_bool,
    to_bool, BoolConvertible_int, BoolConvertible_bool, int_not, int_to_bool. simpl.
  split; [|reflexivity].
  destruct (Z.eqb_spec a 0) as [Hz|Hnz]; simpl; split; intros Hall.
  - inversion Hall; discriminate.
  - contradiction.
  - exact Hnz.
  - repeat constructor.
Qed.

(** X14. The integer comparison test passes exactly when [a < b]: then
    [verify(a < b)], [verify(b > a)], [verify(a <= b)], [verify(b >= a)]
    and [verify(a != b)] are true and [verify(a == b)] is false, and for
    no other pair of values are all six as the test expects. *)
Theorem integer_comparison_test_passes_iff_less {World} (a b : Z) (s : State World) :
  (Forall (fun c => c = true) (fst (test_integer_comparison a b s)) <-> (a < b)%Z)
  /\ snd (test_integer_comparison a b s) = mk_State (world s) (6 + evaluate_calls s).
Proof.
  unfold test_integer_comparison.
  rewrite !bind_run, !verify_binary_run. simpl.
  unfold Decomposition_operator_bool. simpl.
  split; [|reflexivity].
  rewrite !all_true_cons, negb_true_iff.
  rewrite Z.ltb_lt, Z.gtb_gt, Z.leb_le, Z.geb_ge, Z.eqb_neq.
  split; [tauto | intros Hlt; repeat split; try lia; constructor].
Qed.

(** X15. [__PRETTY_FILE__] cuts [sizeof(PROJECT_SOURCE_DIR)] characters
    off the front of [__FILE__]: the directory and the one character
    after it.  For a file under the directory it is the path relative to
    it; the result is always a tail of [__FILE__] and depends on the
    directory only through its length; a file name no longer than the
    directory leaves nothing to point at; and without
    [PROJECT_SOURCE_DIR] it is [__FILE__] itself. *)
Theorem pretty_file_strips_directory (dir file : string) :
  (forall (sep : ascii) (rel : string),
      PRETTY_FILE (Some dir) (dir ++ String sep rel) = Some rel)
  /\ (forall pretty,
        PRETTY_FILE (Some dir) file = Some pretty ->
        exists front,
          file = front ++ pretty /\ String.length front = S (String.length dir))
  /\ (forall dir',
        String.length dir' = String.length dir ->
        PRETTY_FILE (Some dir') file = PRETTY_FILE (Some dir) file)
  /\ (String.length file <= String.length dir -> PRETTY_FILE (Some dir) file = None)
  /\ PRETTY_FILE None file = Some file.
Proof.
  unfold PRETTY_FILE, address_of_index, sizeof_literal.
  split; [|split; [|split; [|split]]].
  - intros sep rel.
    replace (Nat.leb (S (String.length dir)) (String.length (dir ++ String sep rel)))
      with true
      by (symmetry; apply Nat.leb_le; rewrite length_append; simpl; lia).
    f_equal.
    change (S (String.length dir)) with (String.length (String sep dir)).
    assert (forall d t, drop (S (String.length d)) (d ++ String sep t) = t) as Hdrop.
    { induction d as [|c d IH]; intros t; simpl; [now destruct t | apply IH]. }
    apply Hdrop.
  - intros pretty Hsome.
    destruct (Nat.leb_spec (S (String.length dir)) (String.length file)) as [Hle|Hgt];
      [|discriminate].
    injection Hsome as <-. exact (drop_splits (S (String.length dir)) file Hle).
  - intros dir' Hlen. now rewrite Hlen.
  - intros Hshort.
    destruct (Nat.leb_spec (S (String.length dir)) (String.length file)) as [Hle|Hgt];
      [lia | reflexivity].
  - reflexivity.
Qed.

(** X15 at the test file under a project directory. *)
Lemma pretty_file_strips_directory_witness :
  PRETTY_FILE (Some "/home/dev/cpp-verify") "/home/dev/cpp-verify/tests/verify.test.cpp"
  = Some "tests/verify.test.cpp"
  /\ PRETTY_FILE (Some "/home/dev/cpp-verify") "/home/dev/cpp" = None.
Proof.
  split.
  - exact (proj1 (pretty_file_strips_directory "/home/dev/cpp-verify" "")
             "/"%char "tests/verify.test.cpp").
  - apply (proj1 (proj2 (proj2 (proj2
             (pretty_file_strips_directory "/home/dev/cpp-verify" "/home/dev/cpp"))))).
    simpl. lia.
Defined.
